(** * Upload-side Transferable of git-lfs: [lfs/upload_queue.go]

    A shallow embedding of [NewUploadable], [ensureFile] and the methods of
    [Uploadable].  The Go code talks to the filesystem, to the pointer codec
    and to the HTTP client; here the filesystem is a finite map from paths to
    file nodes, every observable call is appended to a log, and the
    collaborators that live in other packages are the fields of the class
    [Externals]. *)

From Stdlib Require Import ZArith Lia Ascii String.
From Stdlib.Strings Require Import Byte.
From stdpp Require Import base option list strings gmap.

(** ** Errors *)

Inductive Errno := ENOENT | EACCES | EIO.

Inductive error :=
| PathError (op path : string) (errno : Errno)  (* *os.PathError *)
| ErrorString (msg : string)                    (* fmt.Errorf *)
| Wrapped (inner : error) (msg : string)        (* errutil.Errorf, errutil.Error *)
| Foreign (pkg msg : string).                   (* an error made by a collaborator *)

Definition errutil_Errorf (err : error) (msg : string) : error := Wrapped err msg.
Definition errutil_Error (err : error) : error := Wrapped err "".

(** ** Data *)

(** A regular file of the filesystem.  [open_errno] and [fstat_errno] make
    [os.Open] and [File.Stat] fail on a file that exists. *)
Record FileNode := {
  data : list byte;
  open_errno : option Errno;
  fstat_errno : option Errno
}.

Record FileInfo := { fi_Name : string; fi_Size : Z }.

(** An open [*os.File]: the name given to [os.Open] and the node it reads. *)
Record File := { file_Name : string; file_node : FileNode }.

(** The value [PointerClean] returns: the staging file and the pointer
    fields [ensureFile] reads. *)
Record cleanedAsset := {
  cleaned_Filename : string;
  cleaned_Oid : string;
  cleaned_Size : Z
}.

Module api.

(** Modelled from the spec: the declaration of [api.ObjectResource] is not
    among the sources.  The spec has it as [{oid, size, authorized_actions}],
    the actions mapping an action name to a descriptor
    [{url, headers, expiry}]. *)
Record LinkRelation := {
  Href : string;
  Header : gmap string string;
  ExpiresAt : Z
}.

Record ObjectResource := {
  Oid : string;
  Size : Z;
  Actions : gmap string LinkRelation
}.

End api.

(** ** The world: filesystem and log *)

Inductive Event :=
| EvStat (name : string)                      (* os.Stat *)
| EvOpen (name : string)                      (* os.Open *)
| EvFileStat (name : string)                  (* File.Stat *)
| EvClose (name : string)                     (* File.Close *)
| EvEnsureFile (smudgePath cleanPath : string) (* entry of ensureFile *)
| EvClean (name : string) (size : Z)          (* PointerClean *)
| EvTeardown (c : cleanedAsset)               (* cleanedAsset.Teardown *)
| EvUploadCheck (oidPath : string)            (* api.UploadCheck *)
| EvUploadObject (obj : api.ObjectResource)   (* api.UploadObject *)
| EvPut (url : string) (chunk : list byte)    (* bytes written to the remote *)
| EvProgress (total read current : Z).        (* what a progress sink writes down *)

Record World := { fs : gmap string FileNode; log : list Event }.

(** ** Computations: state passing, with Go's panic as an outcome *)

Inductive outcome (A : Type) :=
| Return (a : A)
| Panic (msg : string).
Arguments Return {A} a.
Arguments Panic {A} msg.

Definition M (A : Type) : Type := World -> outcome A * World.

Definition ret {A} (a : A) : M A := fun w => (Return a, w).

Definition bind {A B} (c : M A) (k : A -> M B) : M B :=
  fun w =>
    match c w with
    | (Return a, w1) => k a w1
    | (Panic msg, w1) => (Panic msg, w1)
    end.

Definition panic {A} (msg : string) : M A := fun w => (Panic msg, w).

Definition emit (e : Event) : M unit :=
  fun w => (Return tt, {| fs := fs w; log := log w ++ [e] |}).

(** [defer cleanup body]: a [defer] statement.  The cleanup runs when the
    body is left, by a return or by a panic. *)
Definition defer {A} (cleanup : M unit) (body : M A) : M A :=
  fun w => let '(r, w1) := body w in (r, snd (cleanup w1)).

Notation "x <- c ;; k" := (bind c (fun x => k))
  (at level 100, c at next level, right associativity).
Notation "c ;; k" := (bind c (fun _ => k))
  (at level 100, right associativity).

Definition nil_dereference : string :=
  "runtime error: invalid memory address or nil pointer dereference".

(** A function value of type [func(total, read int64, current int) error]:
    a Go closure, which acts on the world and may panic. *)
Definition callback : Type := Z -> Z -> Z -> M (option error).

(** [progress.CopyCallback].  A Go func value may be nil: [None]. *)
Definition CopyCallback : Type := option callback.

(** ** Package os *)

Definition node_size (n : FileNode) : Z := Z.of_nat (length (data n)).

Definition os_Stat (name : string) : M (FileInfo + error) :=
  emit (EvStat name);;
  fun w =>
    match fs w !! name with
    | Some n => (Return (inl {| fi_Name := name; fi_Size := node_size n |}), w)
    | None => (Return (inr (PathError "stat" name ENOENT)), w)
    end.

Definition os_Open (name : string) : M (File + error) :=
  emit (EvOpen name);;
  fun w =>
    match fs w !! name with
    | Some n =>
        match open_errno n with
        | Some e => (Return (inr (PathError "open" name e)), w)
        | None => (Return (inl {| file_Name := name; file_node := n |}), w)
        end
    | None => (Return (inr (PathError "open" name ENOENT)), w)
    end.

Definition File_Stat (f : File) : M (FileInfo + error) :=
  emit (EvFileStat (file_Name f));;
  match fstat_errno (file_node f) with
  | Some e => ret (inr (PathError "stat" (file_Name f) e))
  | None =>
      ret (inl {| fi_Name := file_Name f; fi_Size := node_size (file_node f) |})
  end.

Definition File_Close (f : File) : M unit := emit (EvClose (file_Name f)).

(** ** Package progress *)

(** [progress.CallbackReader] as [Transfer] builds it: the fields [C],
    [TotalSize] and [Reader].  [C] is a Go closure, so it acts on the world. *)
Record CallbackReader := {
  C : callback;
  TotalSize : Z;
  Reader : File
}.

(** ** Collaborators from other packages *)

Class Externals := {
  (** [config.LocalWorkingDir] *)
  LocalWorkingDir : string;
  (** [LocalMediaPath(oid) (string, error)] *)
  LocalMediaPath : string -> string + error;
  (** [PointerClean(reader, fileName, fileSize, cb)], returning the asset and an error;
      it may write to the filesystem. *)
  PointerClean :
    File -> string -> Z -> CopyCallback ->
    gmap string FileNode ->
    (option cleanedAsset * option error) * gmap string FileNode;
  (** [cleanedAsset.Teardown()]: what it does to the filesystem. *)
  Teardown : cleanedAsset -> gmap string FileNode -> gmap string FileNode;
  (** [api.UploadCheck(oidPath)], returning the resource and an error *)
  UploadCheck : string -> option api.ObjectResource * option error;
  (** [api.UploadObject(obj, reader) error]; it may call [reader.C], and it
      panics when that call does. *)
  UploadObject : api.ObjectResource -> CallbackReader -> M (option error);
  (** [filepath.Base], [filepath.Dir], [filepath.Join] *)
  filepath_Base : string -> string;
  filepath_Dir : string -> string;
  filepath_Join : string -> string -> string;
  (** [strconv.Quote], the rendering of the verb [%q] *)
  strconv_Quote : string -> string
}.

(** ** Reading the log *)

(** [extend evs w]: the world [w] after the calls [evs], the files untouched. *)
Definition extend (evs : list Event) (w : World) : World :=
  {| fs := fs w; log := log w ++ evs |}.

(** What was logged between [w] and a later world [w']. *)
Definition events_since (w w' : World) : list Event :=
  drop (length (log w)) (log w').

Definition is_ensureFile (e : Event) : bool :=
  match e with EvEnsureFile _ _ => true | _ => false end.

Definition is_clean (e : Event) : bool :=
  match e with EvClean _ _ => true | _ => false end.

Definition is_open (e : Event) : bool :=
  match e with EvOpen _ => true | _ => false end.

(** The assets torn down in a log, in order. *)
Fixpoint teardowns (evs : list Event) : list cleanedAsset :=
  match evs with
  | [] => []
  | EvTeardown c :: evs' => c :: teardowns evs'
  | _ :: evs' => teardowns evs'
  end.

(** [occurs s t]: the string [s] is a part of [t]. *)
Definition occurs (s t : string) : Prop :=
  exists a b, t = a +:+ s +:+ b.



Section Lfs.
Context `{Ext : Externals}.

Definition call_PointerClean (file : File) (fileName : string) (fileSize : Z)
    (cb : CopyCallback) : M (option cleanedAsset * option error) :=
  emit (EvClean fileName fileSize);;
  fun w =>
    let '(r, fs1) := PointerClean file fileName fileSize cb (fs w) in
    (Return r, {| fs := fs1; log := log w |}).

Definition call_Teardown (c : cleanedAsset) : M unit :=
  emit (EvTeardown c);;
  fun w => (Return tt, {| fs := Teardown c (fs w); log := log w |}).

Definition call_UploadCheck (oidPath : string)
    : M (option api.ObjectResource * option error) :=
  emit (EvUploadCheck oidPath);;
  ret (UploadCheck oidPath).

Definition call_UploadObject (obj : api.ObjectResource) (reader : CallbackReader)
    : M (option error) :=
  emit (EvUploadObject obj);;
  UploadObject obj reader.

(** ** [ensureFile] *)

(** The message of the error [ensureFile] makes on a mismatch:
    ["Trying to push %q with OID %s.\nNot found in %s."] *)
Definition mismatch_message (smudgePath expectedOid dir : string) : string :=
  "Trying to push " +:+ strconv_Quote smudgePath +:+ " with OID " +:+
  expectedOid +:+ "." +:+ String "010" "Not found in " +:+ dir +:+ ".".

Definition ensureFile (smudgePath cleanPath : string) : M (option error) :=
  emit (EvEnsureFile smudgePath cleanPath);;
  st <- os_Stat cleanPath;;
  match st with
  | inl _ => ret None
  | inr _ =>
      let expectedOid := filepath_Base cleanPath in
      let localPath := filepath_Join LocalWorkingDir smudgePath in
      opened <- os_Open localPath;;
      match opened with
      | inr err => ret (Some err)
      | inl file =>
          defer (File_Close file) (
            st <- File_Stat file;;
            match st with
            | inr err => ret (Some err)
            | inl stat =>
                r <- call_PointerClean file (file_Name file) (fi_Size stat) None;;
                let '(cleaned, err) := r in
                match cleaned with
                | Some c => call_Teardown c
                | None => ret tt
                end;;
                match err with
                | Some e => ret (Some e)
                | None =>
                    match cleaned with
                    | None => panic nil_dereference
                    | Some c =>
                        if String.eqb expectedOid (cleaned_Oid c)
                        then ret None
                        else ret (Some (ErrorString
                               (mismatch_message smudgePath expectedOid
                                  (filepath_Dir cleanPath))))
                    end
                end
            end)
      end
  end.

(** ** [Uploadable] *)

(** [Uploadable describes a file that can be uploaded.]  The field [object]
    is a pointer, [None] being Go's nil. *)
Record Uploadable := {
  u_oid : string;
  u_OidPath : string;
  u_Filename : string;
  u_size : Z;
  u_object : option api.ObjectResource
}.

(** ["Error uploading file %s (%s)"] *)
Definition upload_error_message (filename oid : string) : string :=
  "Error uploading file " +:+ filename +:+ " (" +:+ oid +:+ ")".

Definition NewUploadable (oid filename : string) : M (Uploadable + error) :=
  match LocalMediaPath oid with
  | inr err =>
      ret (inr (errutil_Errorf err (upload_error_message filename oid)))
  | inl localMediaPath =>
      checked <- (if (0 <? String.length filename)%nat
                  then ensureFile filename localMediaPath
                  else ret None);;
      match checked with
      | Some err => ret (inr err)
      | None =>
          st <- os_Stat localMediaPath;;
          match st with
          | inr err =>
              ret (inr (errutil_Errorf err (upload_error_message filename oid)))
          | inl fi =>
              ret (inl {| u_oid := oid; u_OidPath := localMediaPath;
                          u_Filename := filename; u_size := fi_Size fi;
                          u_object := None |})
          end
      end
  end.

Definition Uploadable_Check (u : Uploadable)
    : M (option api.ObjectResource * option error) :=
  call_UploadCheck (u_OidPath u).

(** The closure [wcb] of [Transfer]: it calls [cb], drops what [cb] returns
    and returns nil.  Calling a nil [cb] panics. *)
Definition wcb (cb : CopyCallback) : callback :=
  fun total read current =>
    match cb with
    | None => panic nil_dereference
    | Some f => f total read current;; ret None
    end.

Definition Uploadable_Transfer (u : Uploadable) (cb : CopyCallback)
    : M (option error) :=
  match u_object u with
  | None => panic nil_dereference
  | Some obj =>
      match LocalMediaPath (api.Oid obj) with
      | inr err => ret (Some (errutil_Error err))
      | inl path =>
          opened <- os_Open path;;
          match opened with
          | inr err => ret (Some (errutil_Error err))
          | inl file =>
              defer (File_Close file)
                (let reader := {| C := wcb cb;
                                  TotalSize := api.Size obj;
                                  Reader := file |} in
                 call_UploadObject obj reader)
          end
      end
  end.

Definition Uploadable_Object (u : Uploadable) : option api.ObjectResource :=
  u_object u.

Definition Uploadable_Oid (u : Uploadable) : string := u_oid u.

Definition Uploadable_Size (u : Uploadable) : Z := u_size u.

Definition Uploadable_Name (u : Uploadable) : string := u_Filename u.

(** [SetObject] assigns through the pointer receiver: the result is the
    object after the call. *)
Definition Uploadable_SetObject (u : Uploadable)
    (o : option api.ObjectResource) : Uploadable :=
  {| u_oid := u_oid u; u_OidPath := u_OidPath u; u_Filename := u_Filename u;
     u_size := u_size u; u_object := o |}.

(** ** Sequences of method calls on one [Uploadable] *)

Inductive Op :=
| OpCheck
| OpTransfer (cb : CopyCallback)
| OpObject
| OpOid
| OpSize
| OpName
| OpSetObject (o : option api.ObjectResource).

Definition step (op : Op) (u : Uploadable) : M Uploadable :=
  match op with
  | OpCheck => Uploadable_Check u;; ret u
  | OpTransfer cb => Uploadable_Transfer u cb;; ret u
  | OpSetObject o => ret (Uploadable_SetObject u o)
  | OpObject | OpOid | OpSize | OpName => ret u
  end.

Fixpoint run (ops : list Op) (u : Uploadable) : M Uploadable :=
  match ops with
  | [] => ret u
  | op :: ops' => u' <- step op u;; run ops' u'
  end.

(** The resource the calls of [SetObject] among [ops] leave behind. *)
Fixpoint last_set (ops : list Op) (o : option api.ObjectResource)
    : option api.ObjectResource :=
  match ops with
  | [] => o
  | OpSetObject o' :: ops' => last_set ops' o'
  | _ :: ops' => last_set ops' o
  end.

(** ** Vocabulary of the properties *)

(** The path [ensureFile] opens for [smudgePath]. *)
Definition localPath_of (smudgePath : string) : string :=
  filepath_Join LocalWorkingDir smudgePath.

(** What [ensureFile] answers after a clean that returned [err] and a
    non-nil asset. *)
Definition verdict (smudgePath cleanPath : string) (asset : cleanedAsset)
    (err : option error) : option error :=
  match err with
  | Some e => Some e
  | None =>
      if String.eqb (filepath_Base cleanPath) (cleaned_Oid asset) then None
      else Some (ErrorString (mismatch_message smudgePath
                   (filepath_Base cleanPath) (filepath_Dir cleanPath)))
  end.


(** The reconciliation step of [NewUploadable]: [ensureFile] when a filename
    is given, nothing otherwise. *)
Definition reconcile_step (filename localMediaPath : string) : M (option error) :=
  if (0 <? String.length filename)%nat
  then ensureFile filename localMediaPath
  else ret None.

(** Whether [ensureFile] was entered between [w] and [w']. *)
Definition reconciled (w w' : World) : bool :=
  existsb is_ensureFile (events_since w w').

(** The claim that reconciliation runs exactly for the non-empty filenames,
    for every [oid]. *)
Definition reconciles_iff_named : Prop :=
  forall oid filename w,
    reconciled w (snd (NewUploadable oid filename w)) = true <-> filename <> "".

(** The claim that the resource of an [Uploadable] is written once: after
    [Object()] is non-nil, no sequence of method calls changes it. *)
Definition object_set_once : Prop :=
  forall u w ops u' w' o,
    Uploadable_Object u = Some o ->
    run ops u w = (Return u', w') ->
    Uploadable_Object u' = Some o.

Definition is_SetObject (op : Op) : bool :=
  match op with OpSetObject _ => true | _ => false end.

End Lfs.

(** ** The upload itself, from the spec *)

(** The bytes of a file as the successive reads of a buffer of [n] bytes
    deliver them. *)
Fixpoint chunks_fuel (fuel n : nat) (l : list byte) : list (list byte) :=
  match fuel with
  | O => []
  | S fuel' =>
      match l with
      | [] => []
      | _ :: _ => take n l :: chunks_fuel fuel' n (drop n l)
      end
  end.

Definition chunks (n : nat) (l : list byte) : list (list byte) :=
  chunks_fuel (length l) n l.

(** Modelled from the spec: [api.UploadObject] and the [Read] method of
    [progress.CallbackReader] are not among the sources.  The spec has the
    transfer stream the object to the authorized upload URL and report
    [(totalBytes, bytesSentSoFar, chunkSize)] to the progress sink after each
    chunk; it fails with [UploadError] when the transport fails and with
    [AuthExpired] when the expiry of the authorization has passed before the
    stream completes.  [put] is the raw PUT of the HTTP client and [clock]
    the time it reads off the world; the expiry is looked at before each
    chunk. *)
Fixpoint stream (put : string -> list byte -> option error)
    (clock : World -> Z) (link : api.LinkRelation)
    (r : CallbackReader) (sent : Z) (cs : list (list byte)) (w : World)
    : outcome (option error) * World :=
  match cs with
  | [] => (Return None, w)
  | c :: cs' =>
      if (api.ExpiresAt link <? clock w)%Z
      then (Return (Some (Foreign "api" "AuthExpired")), w)
      else
        let n := Z.of_nat (length c) in
        let w1 := extend [EvPut (api.Href link) c] w in
        match put (api.Href link) c with
        | Some e => (Return (Some (Wrapped e "UploadError")), w1)
        | None =>
            match C r (TotalSize r) (sent + n)%Z n w1 with
            | (Return (Some e), w2) => (Return (Some e), w2)
            | (Return None, w2) => stream put clock link r (sent + n)%Z cs' w2
            | (Panic msg, w2) => (Panic msg, w2)
            end
        end
  end.

(** Modelled from the spec: see [stream].  [bufsize] is the size of the
    read buffer less one. *)
Definition spec_UploadObject (bufsize : nat)
    (put : string -> list byte -> option error) (clock : World -> Z)
    (obj : api.ObjectResource) (r : CallbackReader) : M (option error) :=
  match api.Actions obj !! "upload" with
  | None => ret (Some (Foreign "api" "UploadError: no upload action"))
  | Some link =>
      stream put clock link r 0
        (chunks (S bufsize) (data (file_node (Reader r))))
  end.

(** ** A small repository *)

(** Paths with [/] as the separator. *)
Definition is_sep (a : ascii) : bool := Ascii.eqb a "/".

Fixpoint drop_seps (l : list ascii) : list ascii :=
  match l with
  | [] => []
  | a :: l' => if is_sep a then drop_seps l' else l
  end.

Fixpoint upto_sep (l : list ascii) : list ascii :=
  match l with
  | [] => []
  | a :: l' => if is_sep a then [] else a :: upto_sep l'
  end.

Fixpoint from_sep (l : list ascii) : list ascii :=
  match l with
  | [] => []
  | a :: l' => if is_sep a then l else from_sep l'
  end.

(** [filepath.Base]: the last element of the path, trailing separators
    removed; [.] for the empty path, [/] for a path of separators. *)
Definition unix_Base (path : string) : string :=
  match path with
  | EmptyString => "."
  | _ =>
      match drop_seps (rev (list_ascii_of_string path)) with
      | [] => "/"
      | r => string_of_list_ascii (rev (upto_sep r))
      end
  end.

(** [filepath.Dir] on a path that is clean already: all but the last
    element. *)
Definition unix_Dir (path : string) : string :=
  let r := from_sep (rev (list_ascii_of_string path)) in
  match drop_seps r with
  | [] => match r with [] => "." | _ => "/" end
  | d => string_of_list_ascii (rev d)
  end.

(** [filepath.Join] of two clean elements. *)
Definition unix_Join (dir elem : string) : string :=
  match dir, elem with
  | EmptyString, _ => elem
  | _, EmptyString => dir
  | _, _ => dir +:+ "/" +:+ elem
  end.

Definition quoted (s : string) : string :=
  String "034" (s +:+ String "034" "").

(** The identifier of a content in the examples: the content itself, read as
    a string. *)
Definition sample_oid (bs : list byte) : string := string_of_list_byte bs.

Definition sample_media_path (oid : string) : string :=
  ".git/lfs/objects/" +:+ oid.

Definition staging_path : string := ".git/lfs/tmp/clean".

(** A clean that stores the content under its identifier and leaves a
    staging file; on a content that starts with a zero byte it gives up, and
    still returns its staging file. *)
Definition sample_PointerClean (file : File) (fileName : string) (fileSize : Z)
    (cb : CopyCallback) (files : gmap string FileNode)
    : (option cleanedAsset * option error) * gmap string FileNode :=
  match data (file_node file) with
  | x00 :: _ =>
      ((Some {| cleaned_Filename := staging_path; cleaned_Oid := "";
                cleaned_Size := 0 |},
        Some (Foreign "lfs" "read failed")),
       <[staging_path := file_node file]> files)
  | bs =>
      ((Some {| cleaned_Filename := staging_path; cleaned_Oid := sample_oid bs;
                cleaned_Size := fileSize |},
        None),
       <[staging_path := file_node file]>
         (<[sample_media_path (sample_oid bs) := file_node file]> files))
  end.

Definition sample_link : api.LinkRelation :=
  {| api.Href := "https://lfs.example/objects/abc";
     api.Header := ∅;
     api.ExpiresAt := 0 |}.

Definition sample_object : api.ObjectResource :=
  {| api.Oid := "abc"; api.Size := 3;
     api.Actions := {[ "upload" := sample_link ]} |}.

Definition other_object : api.ObjectResource :=
  {| api.Oid := "hello"; api.Size := 5; api.Actions := ∅ |}.

Definition sample_env : Externals := {|
  LocalWorkingDir := "/repo";
  LocalMediaPath := fun oid => inl (sample_media_path oid);
  PointerClean := sample_PointerClean;
  Teardown := fun c files => delete (cleaned_Filename c) files;
  UploadCheck := fun _ => (Some sample_object, None);
  UploadObject := spec_UploadObject 1 (fun _ _ => None) (fun _ => 0%Z);
  filepath_Base := unix_Base;
  filepath_Dir := unix_Dir;
  filepath_Join := unix_Join;
  strconv_Quote := quoted
|}.

(** The same repository when the directory of the local objects cannot be
    made: [LocalMediaPath] fails. *)
Definition no_media_env : Externals := {|
  LocalWorkingDir := "/repo";
  LocalMediaPath := fun _ =>
    inr (Foreign "lfs" "Error trying to create local media directory");
  PointerClean := sample_PointerClean;
  Teardown := fun c files => delete (cleaned_Filename c) files;
  UploadCheck := fun _ => (Some sample_object, None);
  UploadObject := spec_UploadObject 1 (fun _ _ => None) (fun _ => 0%Z);
  filepath_Base := unix_Base;
  filepath_Dir := unix_Dir;
  filepath_Join := unix_Join;
  strconv_Quote := quoted
|}.

Definition node_of (s : string) : FileNode :=
  {| data := list_byte_of_string s; open_errno := None; fstat_errno := None |}.

(** The object [abc] is in the CAS; the working copy has [a.bin], whose
    content is [hello], and [bad.bin], which starts with a zero byte. *)
Definition sample_world : World :=
  {| fs := <[ "/repo/a.bin" := node_of "hello" ]>
           (<[ "/repo/bad.bin" :=
                 {| data := [x00; x01]; open_errno := None;
                    fstat_errno := None |} ]>
            {[ sample_media_path "abc" := node_of "abc" ]});
     log := [] |}.

Definition sample_uploadable : Uploadable :=
  {| u_oid := "abc"; u_OidPath := sample_media_path "abc";
     u_Filename := "a.bin"; u_size := 3; u_object := None |}.

Definition silent : CopyCallback := Some (fun _ _ _ => ret None).

(** A progress sink that writes down what it is told and asks, in vain, for
    the transfer to stop. *)
Definition recording : callback :=
  fun total read current =>
    emit (EvProgress total read current);;
    ret (Some (Foreign "progress" "stop")).

(** The files after the sample clean of a working-copy file. *)
Definition cleaned_files (name : string) (n : FileNode) : gmap string FileNode :=
  snd (sample_PointerClean {| file_Name := name; file_node := n |} name
         (node_size n) None (fs sample_world)).

Definition bad_node : FileNode :=
  {| data := [x00; x01]; open_errno := None; fstat_errno := None |}.

Definition failed_asset : cleanedAsset :=
  {| cleaned_Filename := staging_path; cleaned_Oid := ""; cleaned_Size := 0 |}.

Definition sample_calls : list Op :=
  [OpOid; OpCheck; OpSetObject (Some sample_object); OpTransfer silent;
   OpObject].

(** ** Further vocabulary: the exits of [ensureFile] and [Transfer] *)

(** The files closed in a log, in order. *)
Fixpoint closes (evs : list Event) : list string :=
  match evs with
  | [] => []
  | EvClose name :: evs' => name :: closes evs'
  | _ :: evs' => closes evs'
  end.

Definition is_upload (e : Event) : bool :=
  match e with EvUploadObject _ => true | _ => false end.

Section Exits.
Context `{Ext : Externals}.

(** Whether [ensureFile] gets the working-copy file open: the CAS entry is
    absent and [os.Open] succeeds. *)
Definition opens_working_file (smudgePath cleanPath : string) (w : World)
    : bool :=
  match fs w !! cleanPath, fs w !! localPath_of smudgePath with
  | None, Some n =>
      match open_errno n with None => true | Some _ => false end
  | _, _ => false
  end.

(** [PointerClean] never returns a nil asset together with a nil error. *)
Definition clean_never_nil_nil : Prop :=
  forall file fileName fileSize cb files fs1,
    PointerClean file fileName fileSize cb files <> ((None, None), fs1).

(** The reader [Transfer] hands to [api.UploadObject]. *)
Definition transfer_reader (cb : CopyCallback) (obj : api.ObjectResource)
    (path : string) (n : FileNode) : CallbackReader :=
  {| C := wcb cb; TotalSize := api.Size obj;
     Reader := {| file_Name := path; file_node := n |} |}.

(** The ways through [ensureFile]: the CAS entry is there; the working-copy
    file does not open; its size cannot be read; the clean returns no asset;
    the clean returns an asset. *)
Inductive ensureFile_exit (smudgePath cleanPath : string) (w : World) : Prop :=
| exit_present n :
    fs w !! cleanPath = Some n ->
    ensureFile_exit smudgePath cleanPath w
| exit_unopened err :
    fs w !! cleanPath = None ->
    fst (os_Open (localPath_of smudgePath) w) = Return (inr err) ->
    ensureFile_exit smudgePath cleanPath w
| exit_unstatted n e :
    fs w !! cleanPath = None ->
    fs w !! localPath_of smudgePath = Some n ->
    open_errno n = None ->
    fstat_errno n = Some e ->
    ensureFile_exit smudgePath cleanPath w
| exit_no_asset n err fs1 :
    fs w !! cleanPath = None ->
    fs w !! localPath_of smudgePath = Some n ->
    open_errno n = None ->
    fstat_errno n = None ->
    PointerClean {| file_Name := localPath_of smudgePath; file_node := n |}
      (localPath_of smudgePath) (node_size n) None (fs w)
      = ((None, err), fs1) ->
    ensureFile_exit smudgePath cleanPath w
| exit_cleaned n asset err fs1 :
    fs w !! cleanPath = None ->
    fs w !! localPath_of smudgePath = Some n ->
    open_errno n = None ->
    fstat_errno n = None ->
    PointerClean {| file_Name := localPath_of smudgePath; file_node := n |}
      (localPath_of smudgePath) (node_size n) None (fs w)
      = ((Some asset, err), fs1) ->
    ensureFile_exit smudgePath cleanPath w.

(** The function [f] returns on every call. *)
Definition callback_returns (f : callback) : Prop :=
  forall total read current w,
    exists e w', f total read current w = (Return e, w').

(** [api.UploadObject] returns whenever the callback of its reader does. *)
Definition upload_returns : Prop :=
  forall obj r w,
    callback_returns (C r) ->
    exists e w', UploadObject obj r w = (Return e, w').

(** The claim that [Transfer] returns on every input once the resource is
    set. *)
Definition Transfer_total_once_set : Prop :=
  forall u cb w,
    is_Some (Uploadable_Object u) ->
    exists e w', Uploadable_Transfer u cb w = (Return e, w').


End Exits.

(** A repository where no staging file can be made: [PointerClean] returns
    a nil asset and an error. *)
Definition no_staging_env : Externals := {|
  LocalWorkingDir := "/repo";
  LocalMediaPath := fun oid => inl (sample_media_path oid);
  PointerClean := fun _ _ _ _ files =>
    ((None, Some (Foreign "lfs" "no temporary file")), files);
  Teardown := fun c files => delete (cleaned_Filename c) files;
  UploadCheck := fun _ => (Some sample_object, None);
  UploadObject := spec_UploadObject 1 (fun _ _ => None) (fun _ => 0%Z);
  filepath_Base := unix_Base;
  filepath_Dir := unix_Dir;
  filepath_Join := unix_Join;
  strconv_Quote := quoted
|}.

(** A repository whose [PointerClean] returns nil twice. *)
Definition nil_clean_env : Externals := {|
  LocalWorkingDir := "/repo";
  LocalMediaPath := fun oid => inl (sample_media_path oid);
  PointerClean := fun _ _ _ _ files => ((None, None), files);
  Teardown := fun c files => delete (cleaned_Filename c) files;
  UploadCheck := fun _ => (Some sample_object, None);
  UploadObject := spec_UploadObject 1 (fun _ _ => None) (fun _ => 0%Z);
  filepath_Base := unix_Base;
  filepath_Dir := unix_Dir;
  filepath_Join := unix_Join;
  strconv_Quote := quoted
|}.

(** A repository whose remote refuses every chunk. *)
Definition refusing_env : Externals := {|
  LocalWorkingDir := "/repo";
  LocalMediaPath := fun oid => inl (sample_media_path oid);
  PointerClean := sample_PointerClean;
  Teardown := fun c files => delete (cleaned_Filename c) files;
  UploadCheck := fun _ => (Some sample_object, None);
  UploadObject :=
    spec_UploadObject 1 (fun _ _ => Some (Foreign "http" "503"))
      (fun _ => 0%Z);
  filepath_Base := unix_Base;
  filepath_Dir := unix_Dir;
  filepath_Join := unix_Join;
  strconv_Quote := quoted
|}.

(** A repository whose clock counts the calls logged so far. *)
Definition ticking_env : Externals := {|
  LocalWorkingDir := "/repo";
  LocalMediaPath := fun oid => inl (sample_media_path oid);
  PointerClean := sample_PointerClean;
  Teardown := fun c files => delete (cleaned_Filename c) files;
  UploadCheck := fun _ => (Some sample_object, None);
  UploadObject :=
    spec_UploadObject 1 (fun _ _ => None)
      (fun w => Z.of_nat (length (log w)));
  filepath_Base := unix_Base;
  filepath_Dir := unix_Dir;
  filepath_Join := unix_Join;
  strconv_Quote := quoted
|}.

(** The object [abc] with an upload action that expires at time 3. *)
Definition brief_object : api.ObjectResource :=
  {| api.Oid := "abc"; api.Size := 3;
     api.Actions :=
       {[ "upload" := {| api.Href := "https://lfs.example/objects/abc";
                         api.Header := ∅; api.ExpiresAt := 3 |} ]} |}.

Definition locked_node : FileNode :=
  {| data := list_byte_of_string "secret"; open_errno := Some EACCES;
     fstat_errno := None |}.

Definition stale_node : FileNode :=
  {| data := list_byte_of_string "stale"; open_errno := None;
     fstat_errno := Some EIO |}.

(** The working copy has [locked.bin], which cannot be opened, and
    [stale.bin], whose descriptor cannot be queried; the object [abc] is in
    the CAS, and so is [xyz], which cannot be opened. *)
Definition faulty_world : World :=
  {| fs := <[ "/repo/locked.bin" := locked_node ]>
           (<[ "/repo/stale.bin" := stale_node ]>
            (<[ "/repo/a.bin" := node_of "hello" ]>
             (<[ sample_media_path "xyz" := locked_node ]>
              {[ sample_media_path "abc" := node_of "abc" ]})));
     log := [] |}.

Definition xyz_object : api.ObjectResource :=
  {| api.Oid := "xyz"; api.Size := 6;
     api.Actions := {[ "upload" := sample_link ]} |}.

(** * Properties *)

Lemma events_since_extend evs w fs' :
  events_since w {| fs := fs'; log := log w ++ evs |} = evs.
Proof. unfold events_since. simpl. apply drop_app_length. Qed.

Lemma append_assoc (a b c : string) : (a +:+ b) +:+ c = a +:+ b +:+ c.
Proof.
  induction a as [|x a IH]; [reflexivity |].
  change (String x ((a +:+ b) +:+ c) = String x (a +:+ b +:+ c)).
  now rewrite IH.
Qed.

Lemma occurs_here (s b : string) : occurs s (s +:+ b).
Proof. exists "", b. reflexivity. Qed.

Lemma occurs_later (s a t : string) : occurs s t -> occurs s (a +:+ t).
Proof.
  intros (x & y & ->). exists (a +:+ x), y. now rewrite append_assoc.
Qed.

Create HintDb occurs.
#[local] Hint Resolve occurs_here occurs_later : occurs.

Ltac unfold_io :=
  unfold os_Stat, os_Open, File_Stat, File_Close, call_PointerClean,
    call_Teardown, call_UploadCheck, call_UploadObject, defer, bind, emit,
    ret, panic, extend; simpl.

Ltac tidy_log := repeat (rewrite <- app_assoc; simpl).

Section EnsureFile.
Context `{Ext : Externals}.

(** The run of [ensureFile] that reaches [PointerClean] and gets a non-nil
    asset back, with any error. *)
Lemma ensureFile_cleaned smudgePath cleanPath w n asset err fs1 :
  fs w !! cleanPath = None ->
  fs w !! localPath_of smudgePath = Some n ->
  open_errno n = None ->
  fstat_errno n = None ->
  PointerClean {| file_Name := localPath_of smudgePath; file_node := n |}
    (localPath_of smudgePath) (node_size n) None (fs w)
    = ((Some asset, err), fs1) ->
  ensureFile smudgePath cleanPath w =
    (Return (verdict smudgePath cleanPath asset err),
     {| fs := Teardown asset fs1;
        log := log w ++
          [EvEnsureFile smudgePath cleanPath; EvStat cleanPath;
           EvOpen (localPath_of smudgePath);
           EvFileStat (localPath_of smudgePath);
           EvClean (localPath_of smudgePath) (node_size n);
           EvTeardown asset; EvClose (localPath_of smudgePath)] |}).
Proof.
  intros Hcas Hwork Hopen Hstat Hclean. unfold localPath_of in *.
  unfold ensureFile. unfold_io. rewrite Hcas. simpl.
  rewrite Hwork, Hopen. simpl. rewrite Hstat. simpl.
  rewrite Hclean. simpl. unfold verdict.
  destruct err as [e|]; simpl.
  - tidy_log. reflexivity.
  - destruct (String.eqb _ _); simpl; tidy_log; reflexivity.
Qed.

(** C1.  When the CAS already has content at the clean path, [ensureFile]
    returns nil at once: its only call is the [os.Stat] of the clean path, so
    the working-copy file is not opened, clean is not run and nothing is
    compared; the files are untouched. *)
Theorem ensureFile_cas_present smudgePath cleanPath w n :
  fs w !! cleanPath = Some n ->
  ensureFile smudgePath cleanPath w =
    (Return None,
     extend [EvEnsureFile smudgePath cleanPath; EvStat cleanPath] w)
  /\ existsb is_open
       (events_since w (snd (ensureFile smudgePath cleanPath w))) = false
  /\ existsb is_clean
       (events_since w (snd (ensureFile smudgePath cleanPath w))) = false.
Proof.
  intros Hcas.
  assert (Hrun : ensureFile smudgePath cleanPath w =
    (Return None,
     extend [EvEnsureFile smudgePath cleanPath; EvStat cleanPath] w)).
  { unfold ensureFile. unfold_io. rewrite Hcas. simpl.
    tidy_log. reflexivity. }
  rewrite Hrun. unfold extend. simpl. rewrite events_since_extend.
  repeat split.
Qed.

(** C2.  When the CAS entry is absent and the clean of the working-copy
    file succeeds (the file opens, its size is read, [PointerClean] returns
    an asset and no error): if the OID just computed differs from the base
    name of the clean path, [ensureFile] returns an error whose message names
    the expected identifier and the path (quoted by [%q]); if they are equal
    it returns nil. *)
Theorem ensureFile_compares_oid smudgePath cleanPath w n asset fs1 :
  fs w !! cleanPath = None ->
  fs w !! localPath_of smudgePath = Some n ->
  open_errno n = None ->
  fstat_errno n = None ->
  PointerClean {| file_Name := localPath_of smudgePath; file_node := n |}
    (localPath_of smudgePath) (node_size n) None (fs w)
    = ((Some asset, None), fs1) ->
  (filepath_Base cleanPath <> cleaned_Oid asset ->
     exists msg,
       fst (ensureFile smudgePath cleanPath w) = Return (Some (ErrorString msg))
       /\ occurs (filepath_Base cleanPath) msg
       /\ occurs (strconv_Quote smudgePath) msg)
  /\ (filepath_Base cleanPath = cleaned_Oid asset ->
       fst (ensureFile smudgePath cleanPath w) = Return None).
Proof.
  intros Hcas Hwork Hopen Hstat Hclean.
  rewrite (ensureFile_cleaned _ _ _ _ _ _ _ Hcas Hwork Hopen Hstat Hclean).
  simpl. split; intros Hoid.
  - apply String.eqb_neq in Hoid. rewrite Hoid.
    eexists. split; [reflexivity |]. unfold mismatch_message.
    split; auto 6 with occurs.
  - apply String.eqb_eq in Hoid. now rewrite Hoid.
Qed.

(** C3.  Once [PointerClean] has returned a non-nil asset, [ensureFile]
    tears it down exactly once on the way out, whatever the error of the
    clean and whatever the comparison of the OIDs gives: the teardown is the
    call that follows the clean, and the deferred close of the file comes
    after it. *)
Theorem ensureFile_teardown_once smudgePath cleanPath w n asset err fs1 :
  fs w !! cleanPath = None ->
  fs w !! localPath_of smudgePath = Some n ->
  open_errno n = None ->
  fstat_errno n = None ->
  PointerClean {| file_Name := localPath_of smudgePath; file_node := n |}
    (localPath_of smudgePath) (node_size n) None (fs w)
    = ((Some asset, err), fs1) ->
  exists before,
    fst (ensureFile smudgePath cleanPath w)
      = Return (verdict smudgePath cleanPath asset err)
    /\ events_since w (snd (ensureFile smudgePath cleanPath w))
      = before ++ [EvTeardown asset; EvClose (localPath_of smudgePath)]
    /\ teardowns before = []
    /\ teardowns (events_since w (snd (ensureFile smudgePath cleanPath w)))
      = [asset]
    /\ fs (snd (ensureFile smudgePath cleanPath w)) = Teardown asset fs1.
Proof.
  intros Hcas Hwork Hopen Hstat Hclean.
  rewrite (ensureFile_cleaned _ _ _ _ _ _ _ Hcas Hwork Hopen Hstat Hclean).
  simpl. rewrite events_since_extend.
  exists [EvEnsureFile smudgePath cleanPath; EvStat cleanPath;
          EvOpen (localPath_of smudgePath);
          EvFileStat (localPath_of smudgePath);
          EvClean (localPath_of smudgePath) (node_size n)].
  repeat split; reflexivity.
Qed.

(** C10.  When neither the CAS entry nor the working-copy file (under the
    local working directory) exists, [ensureFile] returns the error of
    [os.Open] on the working-copy path, a not-found error and no OID
    mismatch, and [PointerClean] is not called. *)
Theorem ensureFile_both_absent smudgePath cleanPath w :
  fs w !! cleanPath = None ->
  fs w !! localPath_of smudgePath = None ->
  ensureFile smudgePath cleanPath w =
    (Return (Some (PathError "open" (localPath_of smudgePath) ENOENT)),
     extend [EvEnsureFile smudgePath cleanPath; EvStat cleanPath;
             EvOpen (localPath_of smudgePath)] w)
  /\ (forall msg,
        fst (ensureFile smudgePath cleanPath w)
          <> Return (Some (ErrorString msg)))
  /\ existsb is_clean
       (events_since w (snd (ensureFile smudgePath cleanPath w))) = false.
Proof.
  intros Hcas Hwork. unfold localPath_of in *.
  assert (Hrun : ensureFile smudgePath cleanPath w =
    (Return (Some (PathError "open"
               (filepath_Join LocalWorkingDir smudgePath) ENOENT)),
     extend [EvEnsureFile smudgePath cleanPath; EvStat cleanPath;
             EvOpen (filepath_Join LocalWorkingDir smudgePath)] w)).
  { unfold ensureFile. unfold_io. rewrite Hcas. simpl. rewrite Hwork. simpl.
    tidy_log. reflexivity. }
  rewrite Hrun. split; [reflexivity |]. split.
  - intros msg. simpl. discriminate.
  - unfold extend. simpl. rewrite events_since_extend. reflexivity.
Qed.

(** Every run of [ensureFile] logs its entry first and only adds to the
    log. *)
Lemma ensureFile_logs smudgePath cleanPath w :
  exists evs,
    log (snd (ensureFile smudgePath cleanPath w))
      = log w ++ EvEnsureFile smudgePath cleanPath :: evs.
Proof.
  unfold ensureFile. unfold_io.
  destruct (fs w !! cleanPath) as [n|]; simpl.
  { eexists. tidy_log. reflexivity. }
  destruct (fs w !! filepath_Join LocalWorkingDir smudgePath) as [n|]; simpl;
    [| eexists; tidy_log; reflexivity].
  destruct (open_errno n); simpl; [eexists; tidy_log; reflexivity |].
  destruct (fstat_errno n); simpl; [eexists; tidy_log; reflexivity |].
  destruct (PointerClean _ _ _ _ _) as [[cleaned err] fs1]; simpl.
  destruct cleaned as [c|], err as [e|]; simpl;
    try (eexists; tidy_log; reflexivity).
  destruct (String.eqb _ _); simpl; eexists; tidy_log; reflexivity.
Qed.

End EnsureFile.

Section NewUploadable.
Context `{Ext : Externals}.


Lemma events_since_app w w' evs :
  log w' = log w ++ evs -> events_since w w' = evs.
Proof. intros H. unfold events_since. rewrite H. apply drop_app_length. Qed.

Lemma NewUploadable_run oid filename w p :
  LocalMediaPath oid = inl p ->
  NewUploadable oid filename w =
    match reconcile_step filename p w with
    | (Panic msg, w1) => (Panic msg, w1)
    | (Return (Some err), w1) => (Return (inr err), w1)
    | (Return None, w1) =>
        match fs w1 !! p with
        | Some n =>
            (Return (inl {| u_oid := oid; u_OidPath := p;
                            u_Filename := filename; u_size := node_size n;
                            u_object := None |}),
             extend [EvStat p] w1)
        | None =>
            (Return (inr (errutil_Errorf (PathError "stat" p ENOENT)
                            (upload_error_message filename oid))),
             extend [EvStat p] w1)
        end
    end.
Proof.
  intros Hp. unfold NewUploadable, reconcile_step. rewrite Hp. unfold bind at 1.
  destruct ((if (0 <? String.length filename)%nat
             then ensureFile filename p else ret None) w)
    as [[[err|]|msg] w1]; try reflexivity.
  unfold_io. destruct (fs w1 !! p); reflexivity.
Qed.

Lemma NewUploadable_no_path oid filename w err :
  LocalMediaPath oid = inr err ->
  NewUploadable oid filename w =
    (Return (inr (errutil_Errorf err (upload_error_message filename oid))), w).
Proof. intros Hp. unfold NewUploadable. now rewrite Hp. Qed.

Lemma nonempty_length (s : string) : (0 <? String.length s)%nat = true <-> s <> "".
Proof.
  destruct s; simpl; split; try discriminate; try reflexivity.
  intros H. now contradiction H.
Qed.

(** C4, as the code has it.  For every [oid] whose media path
    [LocalMediaPath] resolves, [NewUploadable] enters [ensureFile] if and
    only if the filename is not empty; an error of [ensureFile] is what
    [NewUploadable] returns, with no further call, and an [Uploadable] comes
    out only after [ensureFile] has returned nil. *)
Theorem NewUploadable_reconciles oid filename w p :
  LocalMediaPath oid = inl p ->
  (reconciled w (snd (NewUploadable oid filename w)) = true <-> filename <> "")
  /\ (forall err w1,
        filename <> "" ->
        ensureFile filename p w = (Return (Some err), w1) ->
        NewUploadable oid filename w = (Return (inr err), w1))
  /\ (forall u w',
        filename <> "" ->
        NewUploadable oid filename w = (Return (inl u), w') ->
        exists w1, ensureFile filename p w = (Return None, w1)).
Proof.
  intros Hp. rewrite (NewUploadable_run _ _ _ _ Hp). unfold reconcile_step.
  split; [| split].
  - rewrite <- nonempty_length. unfold reconciled.
    destruct (0 <? String.length filename)%nat.
    + destruct (ensureFile_logs filename p w) as [evs Hlog].
      destruct (ensureFile filename p w) as [[[err|]|msg] w1]; simpl in *;
        try (rewrite (events_since_app _ _ _ Hlog); now simpl).
      destruct (fs w1 !! p); simpl;
        (erewrite events_since_app;
          [| simpl; rewrite Hlog; rewrite <- app_assoc; reflexivity]);
        now simpl.
    + unfold ret, extend. destruct (fs w !! p); simpl;
        rewrite events_since_extend; simpl; split; discriminate.
  - intros err w1 Hne Hrun. apply nonempty_length in Hne.
    rewrite Hne, Hrun. reflexivity.
  - intros u w' Hne. apply nonempty_length in Hne. rewrite Hne.
    destruct (ensureFile filename p w) as [[[err|]|msg] w1]; try discriminate.
    intros _. now exists w1.
Qed.

(** C5.  Whenever the object at [LocalMediaPath(oid)] is not there once the
    reconciliation step (if any) is over, [NewUploadable] returns an error
    and no [Uploadable]; so an [Uploadable] is made only when the local
    object exists, and its size is the size of that file. *)
Theorem NewUploadable_needs_local_object oid filename w :
  (forall p w1,
     LocalMediaPath oid = inl p ->
     reconcile_step filename p w = (Return None, w1) ->
     fs w1 !! p = None ->
     NewUploadable oid filename w =
       (Return (inr (errutil_Errorf (PathError "stat" p ENOENT)
                       (upload_error_message filename oid))),
        extend [EvStat p] w1))
  /\ (forall u w',
        NewUploadable oid filename w = (Return (inl u), w') ->
        exists p n,
          LocalMediaPath oid = inl p /\ fs w' !! p = Some n
          /\ Uploadable_Size u = node_size n).
Proof.
  split.
  - intros p w1 Hp Hstep Hgone.
    rewrite (NewUploadable_run _ _ _ _ Hp), Hstep, Hgone. reflexivity.
  - intros u w'. destruct (LocalMediaPath oid) as [p|err] eqn:Hp.
    + rewrite (NewUploadable_run _ _ _ _ Hp).
      destruct (reconcile_step filename p w) as [[[err|]|msg] w1];
        try discriminate.
      destruct (fs w1 !! p) as [n|] eqn:Hn; try discriminate.
      intros [= <- <-]. exists p, n. auto.
    + rewrite (NewUploadable_no_path _ _ _ _ Hp). discriminate.
Qed.

(** C9.  On an [Uploadable] that [NewUploadable] has made, [Oid()] is the
    [oid] argument, [Name()] is the [filename] argument, and [Size()] is the
    size of the file at [LocalMediaPath(oid)] as [os.Stat] saw it at the end
    of the construction: the CAS file, not the working-copy file. *)
Theorem NewUploadable_accessors oid filename w u w' :
  NewUploadable oid filename w = (Return (inl u), w') ->
  Uploadable_Oid u = oid
  /\ Uploadable_Name u = filename
  /\ exists p n,
       LocalMediaPath oid = inl p /\ u_OidPath u = p
       /\ fs w' !! p = Some n /\ Uploadable_Size u = node_size n.
Proof.
  destruct (LocalMediaPath oid) as [p|err] eqn:Hp.
  - rewrite (NewUploadable_run _ _ _ _ Hp).
    destruct (reconcile_step filename p w) as [[[err|]|msg] w1];
      try discriminate.
    destruct (fs w1 !! p) as [n|] eqn:Hn; try discriminate.
    intros [= <- <-]. repeat split. exists p, n. auto.
  - rewrite (NewUploadable_no_path _ _ _ _ Hp). discriminate.
Qed.

End NewUploadable.

Section Methods.
Context `{Ext : Externals}.


Lemma step_fields op u w u1 w1 :
  step op u w = (Return u1, w1) ->
  Uploadable_Oid u1 = Uploadable_Oid u
  /\ Uploadable_Object u1 =
       match op with OpSetObject o => o | _ => Uploadable_Object u end.
Proof.
  destruct op; unfold step, ret; try (intros [= <- <-]; now split).
  unfold bind. destruct (Uploadable_Transfer u cb w) as [[r|msg] w0];
    [| discriminate].
  intros [= <- <-]. now split.
Qed.

Lemma run_fields ops : forall u w u' w',
  run ops u w = (Return u', w') ->
  Uploadable_Oid u' = Uploadable_Oid u
  /\ Uploadable_Object u' = last_set ops (Uploadable_Object u).
Proof.
  induction ops as [|op ops IH]; intros u w u' w'; simpl.
  - unfold ret. intros [= <- <-]. now split.
  - unfold bind. destruct (step op u w) as [[u1|msg] w1] eqn:Hstep;
      [| discriminate].
    intros Hrun. apply step_fields in Hstep as [Hoid Hobj].
    apply IH in Hrun as [Hoid' Hobj']. split; [congruence |].
    rewrite Hobj', Hobj. now destruct op.
Qed.

Lemma last_set_without ops : forall o,
  forallb (fun op => negb (is_SetObject op)) ops = true -> last_set ops o = o.
Proof.
  induction ops as [|op ops IH]; intros o; simpl; [reflexivity |].
  intros [Hop Hops]%andb_prop. destruct op; simpl in *; auto; discriminate.
Qed.

(** C7, as the code has it.  On an [Uploadable] made by [NewUploadable],
    and after any sequence of its methods: [Oid()] is still the [oid] given
    to [NewUploadable]; [Object()] is nil at construction and stays nil as
    long as [SetObject] is not called; [SetObject] is the only method that
    changes it, and every call of it replaces the resource, so [Object()] is
    what the last call stored. *)
Theorem Uploadable_oid_fixed_object_last_set oid filename w u w1 ops u' w2 :
  NewUploadable oid filename w = (Return (inl u), w1) ->
  run ops u w1 = (Return u', w2) ->
  Uploadable_Object u = None
  /\ Uploadable_Oid u' = oid
  /\ Uploadable_Object u' = last_set ops None
  /\ (forallb (fun op => negb (is_SetObject op)) ops = true ->
      Uploadable_Object u' = None).
Proof.
  intros Hnew Hrun.
  assert (Hfresh : Uploadable_Object u = None /\ Uploadable_Oid u = oid).
  { destruct (LocalMediaPath oid) as [p|err] eqn:Hp.
    - rewrite (NewUploadable_run _ _ _ _ Hp) in Hnew.
      destruct (reconcile_step filename p w) as [[[err|]|msg] w0];
        try discriminate.
      destruct (fs w0 !! p); try discriminate.
      injection Hnew as <- <-. now split.
    - rewrite (NewUploadable_no_path _ _ _ _ Hp) in Hnew. discriminate. }
  destruct Hfresh as [Hnil Hoid].
  apply run_fields in Hrun as [Hoid' Hobj]. rewrite Hnil in Hobj.
  repeat split; try congruence.
  intros Hnone. rewrite Hobj. now apply last_set_without.
Qed.

Lemma wcb_returns f : callback_returns f -> callback_returns (wcb (Some f)).
Proof.
  intros Hf total read current w. unfold wcb, bind, ret.
  destruct (Hf total read current w) as (e & w' & ->). eauto.
Qed.

(** C8, as the code has it.  [Transfer] on an [Uploadable] whose resource
    is nil dereferences nil: it panics before any call, whatever the
    callback.  On an [Uploadable] whose resource is set, as after
    [SetObject] with a non-nil resource, that branch is not taken, and
    [Transfer] returns, with nil or with an error, for every world and every
    non-nil callback that returns, [api.UploadObject] returning whenever the
    callback of its reader does. *)
Theorem Transfer_returns_once_set u w :
  upload_returns ->
  match Uploadable_Object u with
  | None => forall cb, Uploadable_Transfer u cb w = (Panic nil_dereference, w)
  | Some _ =>
      forall f, callback_returns f ->
        exists e w', Uploadable_Transfer u (Some f) w = (Return e, w')
  end
  /\ forall obj f,
       callback_returns f ->
       exists e w',
         Uploadable_Transfer (Uploadable_SetObject u (Some obj)) (Some f) w
           = (Return e, w').
Proof.
  intros Hup.
  assert (Hset : forall v obj f, u_object v = Some obj -> callback_returns f ->
            exists e w', Uploadable_Transfer v (Some f) w = (Return e, w')).
  { intros v obj f Hv Hf. unfold Uploadable_Transfer. rewrite Hv.
    destruct (LocalMediaPath (api.Oid obj)) as [path|err];
      [| unfold ret; eauto].
    unfold_io. destruct (fs w !! path) as [n|]; simpl; [| eauto].
    destruct (open_errno n); simpl; [eauto |].
    match goal with
    | |- context [UploadObject ?o ?r ?w0] =>
        destruct (Hup o r w0) as (e & w1 & ->); [now apply wcb_returns |]
    end.
    simpl. eauto. }
  split.
  - unfold Uploadable_Object. destruct (u_object u) as [obj|] eqn:Hu.
    + intros f Hf. eapply Hset; eassumption.
    + intros cb. unfold Uploadable_Transfer. now rewrite Hu.
  - intros obj f Hf. eapply Hset; [reflexivity | assumption].
Qed.

End Methods.

(** ** The upload on the spec's model of [api.UploadObject] *)




(** On the spec's model, the upload returns whenever the callback does. *)
Lemma stream_returns put clock link r cs : forall sent w,
  callback_returns (C r) ->
  exists e w', stream put clock link r sent cs w = (Return e, w').
Proof.
  induction cs as [|c cs IH]; intros sent w Hr; simpl; [eauto |].
  destruct (api.ExpiresAt link <? clock w)%Z; [eauto |].
  destruct (put (api.Href link) c); [eauto |].
  destruct (Hr (TotalSize r) (sent + Z.of_nat (length c))%Z
              (Z.of_nat (length c)) (extend [EvPut (api.Href link) c] w))
    as ([e|] & w' & ->); [eauto | now apply IH].
Qed.

Lemma spec_UploadObject_returns bufsize put clock obj r w :
  callback_returns (C r) ->
  exists e w', spec_UploadObject bufsize put clock obj r w = (Return e, w').
Proof.
  intros Hr. unfold spec_UploadObject.
  destruct (api.Actions obj !! "upload"); [now apply stream_returns |].
  unfold ret. eauto.
Qed.

Section Transfer.
Context `{Ext : Externals}.


End Transfer.

(** * The properties on the small repository *)

Lemma ensureFile_cas_present_witness :
  ensureFile (Ext:=sample_env) "a.bin" (sample_media_path "abc") sample_world =
    (Return None,
     extend [EvEnsureFile "a.bin" (sample_media_path "abc");
             EvStat (sample_media_path "abc")] sample_world)
  /\ existsb is_open
       (events_since sample_world
          (snd (ensureFile (Ext:=sample_env) "a.bin" (sample_media_path "abc")
                  sample_world))) = false
  /\ existsb is_clean
       (events_since sample_world
          (snd (ensureFile (Ext:=sample_env) "a.bin" (sample_media_path "abc")
                  sample_world))) = false.
Proof.
  apply (ensureFile_cas_present (Ext:=sample_env) "a.bin"
           (sample_media_path "abc") sample_world (node_of "abc")).
  vm_compute. reflexivity.
Defined.

Lemma ensureFile_compares_oid_witness :
  exists msg,
    fst (ensureFile (Ext:=sample_env) "a.bin" (sample_media_path "other")
           sample_world)
      = Return (Some (ErrorString msg))
    /\ occurs "other" msg
    /\ occurs (quoted "a.bin") msg.
Proof.
  refine (proj1 (ensureFile_compares_oid (Ext:=sample_env) "a.bin"
                   (sample_media_path "other") sample_world (node_of "hello")
                   {| cleaned_Filename := staging_path;
                      cleaned_Oid := "hello"; cleaned_Size := 5 |}
                   (cleaned_files "/repo/a.bin" (node_of "hello"))
                   _ _ _ _ _) _);
    try (vm_compute; reflexivity).
  vm_compute. discriminate.
Defined.

Lemma ensureFile_teardown_once_witness :
  exists before,
    fst (ensureFile (Ext:=sample_env) "bad.bin" (sample_media_path "hello")
           sample_world)
      = Return (Some (Foreign "lfs" "read failed"))
    /\ events_since sample_world
         (snd (ensureFile (Ext:=sample_env) "bad.bin"
                 (sample_media_path "hello") sample_world))
       = before ++ [EvTeardown failed_asset; EvClose "/repo/bad.bin"]
    /\ teardowns before = []
    /\ teardowns
         (events_since sample_world
            (snd (ensureFile (Ext:=sample_env) "bad.bin"
                    (sample_media_path "hello") sample_world)))
       = [failed_asset]
    /\ fs (snd (ensureFile (Ext:=sample_env) "bad.bin"
                  (sample_media_path "hello") sample_world))
       = delete staging_path (cleaned_files "/repo/bad.bin" bad_node).
Proof.
  refine (ensureFile_teardown_once (Ext:=sample_env) "bad.bin"
            (sample_media_path "hello") sample_world bad_node failed_asset
            (Some (Foreign "lfs" "read failed"))
            (cleaned_files "/repo/bad.bin" bad_node) _ _ _ _ _);
    vm_compute; reflexivity.
Defined.

Lemma ensureFile_both_absent_witness :
  ensureFile (Ext:=sample_env) "gone.bin" (sample_media_path "other")
    sample_world
  = (Return (Some (PathError "open" "/repo/gone.bin" ENOENT)),
     extend [EvEnsureFile "gone.bin" (sample_media_path "other");
             EvStat (sample_media_path "other"); EvOpen "/repo/gone.bin"]
       sample_world)
  /\ (forall msg,
        fst (ensureFile (Ext:=sample_env) "gone.bin"
               (sample_media_path "other") sample_world)
          <> Return (Some (ErrorString msg)))
  /\ existsb is_clean
       (events_since sample_world
          (snd (ensureFile (Ext:=sample_env) "gone.bin"
                  (sample_media_path "other") sample_world))) = false.
Proof.
  refine (ensureFile_both_absent (Ext:=sample_env) "gone.bin"
            (sample_media_path "other") sample_world _ _);
    vm_compute; reflexivity.
Defined.

Lemma NewUploadable_reconciles_witness :
  reconciled sample_world
    (snd (NewUploadable (Ext:=sample_env) "abc" "a.bin" sample_world)) = true
  <-> "a.bin" <> "".
Proof.
  exact (proj1 (NewUploadable_reconciles (Ext:=sample_env) "abc" "a.bin"
                  sample_world (sample_media_path "abc") eq_refl)).
Defined.

(** C4, as it is stated, fails: with a filename given and [LocalMediaPath]
    failing, [NewUploadable] returns before [ensureFile] is entered. *)
Lemma NewUploadable_reconciles_counterexample :
  ~ reconciles_iff_named (Ext:=no_media_env).
Proof.
  intros Hclaim.
  destruct (Hclaim "abc" "a.bin" sample_world) as [_ Hran].
  assert (Hnamed : "a.bin" <> "") by discriminate.
  apply Hran in Hnamed. vm_compute in Hnamed. discriminate.
Qed.

Lemma NewUploadable_needs_local_object_witness :
  NewUploadable (Ext:=sample_env) "zzz" "" sample_world =
    (Return (inr (errutil_Errorf
                    (PathError "stat" (sample_media_path "zzz") ENOENT)
                    (upload_error_message "" "zzz"))),
     extend [EvStat (sample_media_path "zzz")] sample_world).
Proof.
  refine (proj1 (NewUploadable_needs_local_object (Ext:=sample_env) "zzz" ""
                   sample_world)
            (sample_media_path "zzz") sample_world _ _ _);
    vm_compute; reflexivity.
Defined.

(** The object [abc] has three bytes in the CAS while the working-copy file
    [a.bin] has five: the size recorded is three. *)
Lemma NewUploadable_accessors_witness :
  Uploadable_Oid sample_uploadable = "abc"
  /\ Uploadable_Name sample_uploadable = "a.bin"
  /\ exists p n,
       LocalMediaPath (Externals:=sample_env) "abc" = inl p
       /\ u_OidPath sample_uploadable = p
       /\ fs (extend [EvEnsureFile "a.bin" (sample_media_path "abc");
                      EvStat (sample_media_path "abc");
                      EvStat (sample_media_path "abc")] sample_world) !! p
          = Some n
       /\ Uploadable_Size sample_uploadable = node_size n.
Proof.
  refine (NewUploadable_accessors (Ext:=sample_env) "abc" "a.bin"
            sample_world sample_uploadable _ _).
  vm_compute. reflexivity.
Defined.

Lemma Uploadable_oid_fixed_object_last_set_witness :
  Uploadable_Object sample_uploadable = None
  /\ Uploadable_Oid (Uploadable_SetObject sample_uploadable (Some sample_object))
     = "abc"
  /\ Uploadable_Object
       (Uploadable_SetObject sample_uploadable (Some sample_object))
     = last_set sample_calls None
  /\ (forallb (fun op => negb (is_SetObject op)) sample_calls = true ->
      Uploadable_Object
        (Uploadable_SetObject sample_uploadable (Some sample_object)) = None).
Proof.
  refine (Uploadable_oid_fixed_object_last_set (Ext:=sample_env) "abc" "a.bin"
            sample_world sample_uploadable
            (snd (NewUploadable (Ext:=sample_env) "abc" "a.bin" sample_world))
            sample_calls
            (Uploadable_SetObject sample_uploadable (Some sample_object))
            (snd (run (Ext:=sample_env) sample_calls sample_uploadable
                    (snd (NewUploadable (Ext:=sample_env) "abc" "a.bin"
                            sample_world))))
            _ _);
    vm_compute; reflexivity.
Defined.

(** C7, as it is stated, fails: a second [SetObject] replaces the resource
    the first one stored. *)
Lemma object_set_once_counterexample :
  ~ object_set_once (Ext:=sample_env).
Proof.
  intros Hclaim.
  specialize (Hclaim
    (Uploadable_SetObject sample_uploadable (Some sample_object))
    sample_world [OpSetObject (Some other_object)]
    (Uploadable_SetObject sample_uploadable (Some other_object))
    sample_world sample_object eq_refl eq_refl).
  vm_compute in Hclaim. discriminate.
Qed.

Lemma recording_returns : callback_returns recording.
Proof. intros total read current w. unfold recording. unfold_io. eauto. Qed.

Lemma sample_upload_returns : upload_returns (Ext:=sample_env).
Proof. intros obj r w Hr. now apply spec_UploadObject_returns. Qed.



Lemma Transfer_returns_once_set_witness :
  exists e w',
    Uploadable_Transfer (Ext:=sample_env)
      (Uploadable_SetObject sample_uploadable (Some sample_object))
      (Some recording) sample_world
    = (Return e, w').
Proof.
  exact (proj2 (Transfer_returns_once_set (Ext:=sample_env) sample_uploadable
                  sample_world sample_upload_returns)
           sample_object recording recording_returns).
Defined.

(** C8, as it is stated, fails: with the resource set and a nil callback,
    [Transfer] panics when the upload reports its first chunk. *)
Lemma Transfer_total_once_set_counterexample :
  ~ Transfer_total_once_set (Ext:=sample_env).
Proof.
  intros Hclaim.
  destruct (Hclaim (Uploadable_SetObject sample_uploadable (Some sample_object))
              None sample_world) as (e & w' & Hrun).
  - now exists sample_object.
  - vm_compute in Hrun. discriminate.
Qed.

(** [Transfer] before any [SetObject]. *)
Example Transfer_before_SetObject :
  Uploadable_Transfer (Ext:=sample_env) sample_uploadable silent sample_world
  = (Panic nil_dereference, sample_world).
Proof. reflexivity. Qed.

(** * Further properties of [ensureFile] *)

Section EnsureFileExits.
Context `{Ext : Externals}.

(** The runs of [ensureFile], one by one.  [ensureFile_cleaned] has the run
    that gets an asset back. *)
Lemma ensureFile_run_present smudgePath cleanPath w n :
  fs w !! cleanPath = Some n ->
  ensureFile smudgePath cleanPath w =
    (Return None,
     {| fs := fs w;
        log := log w ++ [EvEnsureFile smudgePath cleanPath;
                         EvStat cleanPath] |}).
Proof.
  intros Hcas. unfold ensureFile. unfold_io. rewrite Hcas. simpl.
  tidy_log. reflexivity.
Qed.

Lemma ensureFile_run_unopened smudgePath cleanPath w err :
  fs w !! cleanPath = None ->
  fst (os_Open (localPath_of smudgePath) w) = Return (inr err) ->
  ensureFile smudgePath cleanPath w =
    (Return (Some err),
     {| fs := fs w;
        log := log w ++ [EvEnsureFile smudgePath cleanPath; EvStat cleanPath;
                         EvOpen (localPath_of smudgePath)] |}).
Proof.
  unfold localPath_of. intros Hcas. unfold ensureFile. unfold_io.
  rewrite Hcas. simpl.
  destruct (fs w !! filepath_Join LocalWorkingDir smudgePath) as [n|]; simpl.
  - destruct (open_errno n); simpl; [| discriminate].
    intros [= <-]. tidy_log. reflexivity.
  - intros [= <-]. tidy_log. reflexivity.
Qed.

Lemma ensureFile_run_unstatted smudgePath cleanPath w n e :
  fs w !! cleanPath = None ->
  fs w !! localPath_of smudgePath = Some n ->
  open_errno n = None ->
  fstat_errno n = Some e ->
  ensureFile smudgePath cleanPath w =
    (Return (Some (PathError "stat" (localPath_of smudgePath) e)),
     {| fs := fs w;
        log := log w ++ [EvEnsureFile smudgePath cleanPath; EvStat cleanPath;
                         EvOpen (localPath_of smudgePath);
                         EvFileStat (localPath_of smudgePath);
                         EvClose (localPath_of smudgePath)] |}).
Proof.
  unfold localPath_of. intros Hcas Hwork Hopen Hstat.
  unfold ensureFile. unfold_io. rewrite Hcas. simpl.
  rewrite Hwork, Hopen. simpl. rewrite Hstat. simpl.
  tidy_log. reflexivity.
Qed.

Lemma ensureFile_run_no_asset smudgePath cleanPath w n err fs1 :
  fs w !! cleanPath = None ->
  fs w !! localPath_of smudgePath = Some n ->
  open_errno n = None ->
  fstat_errno n = None ->
  PointerClean {| file_Name := localPath_of smudgePath; file_node := n |}
    (localPath_of smudgePath) (node_size n) None (fs w)
    = ((None, err), fs1) ->
  ensureFile smudgePath cleanPath w =
    (match err with
     | Some e => Return (Some e)
     | None => Panic nil_dereference
     end,
     {| fs := fs1;
        log := log w ++ [EvEnsureFile smudgePath cleanPath; EvStat cleanPath;
                         EvOpen (localPath_of smudgePath);
                         EvFileStat (localPath_of smudgePath);
                         EvClean (localPath_of smudgePath) (node_size n);
                         EvClose (localPath_of smudgePath)] |}).
Proof.
  unfold localPath_of. intros Hcas Hwork Hopen Hstat Hclean.
  unfold ensureFile. unfold_io. rewrite Hcas. simpl.
  rewrite Hwork, Hopen. simpl. rewrite Hstat. simpl.
  rewrite Hclean. simpl.
  destruct err as [e|]; simpl; tidy_log; reflexivity.
Qed.

(** Every run of [ensureFile] is one of the five above. *)
Lemma ensureFile_exits smudgePath cleanPath w :
  ensureFile_exit smudgePath cleanPath w.
Proof.
  destruct (fs w !! cleanPath) as [n|] eqn:Hcas;
    [eapply exit_present; eassumption |].
  destruct (fs w !! localPath_of smudgePath) as [n|] eqn:Hwork.
  - destruct (open_errno n) as [e|] eqn:Hopen.
    { eapply exit_unopened; [assumption |].
      unfold os_Open. unfold_io. now rewrite Hwork, Hopen. }
    destruct (fstat_errno n) as [e|] eqn:Hstat;
      [eapply exit_unstatted; eassumption |].
    destruct (PointerClean
                {| file_Name := localPath_of smudgePath; file_node := n |}
                (localPath_of smudgePath) (node_size n) None (fs w))
      as [[[asset|] err] fs1] eqn:Hclean.
    + eapply exit_cleaned; eassumption.
    + eapply exit_no_asset; eassumption.
  - eapply exit_unopened; [assumption |].
    unfold os_Open. unfold_io. now rewrite Hwork.
Qed.

End EnsureFileExits.

Section EnsureFileProperties.
Context `{Ext : Externals}.

Lemma os_Open_error name w err :
  fst (os_Open name w) = Return (inr err) ->
  match fs w !! name with
  | Some n => exists e, open_errno n = Some e /\ err = PathError "open" name e
  | None => err = PathError "open" name ENOENT
  end.
Proof.
  unfold os_Open. unfold_io. destruct (fs w !! name) as [n|]; simpl.
  - destruct (open_errno n) as [e|]; simpl; [| discriminate].
    intros [= <-]. now exists e.
  - now intros [= <-].
Qed.

Lemma unopened_not_opened smudgePath cleanPath w err :
  fst (os_Open (localPath_of smudgePath) w) = Return (inr err) ->
  opens_working_file smudgePath cleanPath w = false.
Proof.
  intros Hopen%os_Open_error. unfold opens_working_file.
  destruct (fs w !! cleanPath); [reflexivity |].
  destruct (fs w !! localPath_of smudgePath) as [n|]; [| reflexivity].
  destruct Hopen as (e & -> & _). reflexivity.
Qed.

(** X1.  When the CAS entry is absent and [os.Open] of the working-copy
    file fails, for whatever reason (the file is missing, or it is there and
    cannot be opened), [ensureFile] returns the error of [os.Open] as it is:
    nothing is closed, clean is not run and the files are untouched. *)
Theorem ensureFile_open_error smudgePath cleanPath w err :
  fs w !! cleanPath = None ->
  fst (os_Open (localPath_of smudgePath) w) = Return (inr err) ->
  ensureFile smudgePath cleanPath w =
    (Return (Some err),
     extend [EvEnsureFile smudgePath cleanPath; EvStat cleanPath;
             EvOpen (localPath_of smudgePath)] w)
  /\ exists e, err = PathError "open" (localPath_of smudgePath) e.
Proof.
  intros Hcas Hopen. split.
  - now apply ensureFile_run_unopened.
  - apply os_Open_error in Hopen.
    destruct (fs w !! localPath_of smudgePath).
    + destruct Hopen as (e & _ & ->). now exists e.
    + now exists ENOENT.
Qed.

(** X2.  When the working-copy file opens and [File.Stat] on it fails,
    [ensureFile] returns that error; the file is closed all the same, clean
    is not run and the files are untouched. *)
Theorem ensureFile_fstat_error smudgePath cleanPath w n e :
  fs w !! cleanPath = None ->
  fs w !! localPath_of smudgePath = Some n ->
  open_errno n = None ->
  fstat_errno n = Some e ->
  ensureFile smudgePath cleanPath w =
    (Return (Some (PathError "stat" (localPath_of smudgePath) e)),
     extend [EvEnsureFile smudgePath cleanPath; EvStat cleanPath;
             EvOpen (localPath_of smudgePath);
             EvFileStat (localPath_of smudgePath);
             EvClose (localPath_of smudgePath)] w)
  /\ existsb is_clean
       (events_since w (snd (ensureFile smudgePath cleanPath w))) = false.
Proof.
  intros Hcas Hwork Hopen Hstat.
  rewrite (ensureFile_run_unstatted _ _ _ _ _ Hcas Hwork Hopen Hstat).
  split; [reflexivity |]. simpl. now rewrite events_since_extend.
Qed.

(** X3.  When [PointerClean] returns an error and a nil asset, [ensureFile]
    returns that error and tears nothing down; the file is closed once and
    the files are as [PointerClean] left them. *)
Theorem ensureFile_clean_error_no_asset smudgePath cleanPath w n e fs1 :
  fs w !! cleanPath = None ->
  fs w !! localPath_of smudgePath = Some n ->
  open_errno n = None ->
  fstat_errno n = None ->
  PointerClean {| file_Name := localPath_of smudgePath; file_node := n |}
    (localPath_of smudgePath) (node_size n) None (fs w)
    = ((None, Some e), fs1) ->
  fst (ensureFile smudgePath cleanPath w) = Return (Some e)
  /\ teardowns (events_since w (snd (ensureFile smudgePath cleanPath w))) = []
  /\ closes (events_since w (snd (ensureFile smudgePath cleanPath w)))
     = [localPath_of smudgePath]
  /\ fs (snd (ensureFile smudgePath cleanPath w)) = fs1.
Proof.
  intros Hcas Hwork Hopen Hstat Hclean.
  rewrite (ensureFile_run_no_asset _ _ _ _ _ _ Hcas Hwork Hopen Hstat Hclean).
  simpl. rewrite events_since_extend. repeat split.
Qed.

(** X4.  When [PointerClean] returns a nil asset and a nil error,
    [ensureFile] panics on [cleaned.Oid]; the deferred close of the file
    still runs, and nothing is torn down. *)
Theorem ensureFile_nil_asset_panics smudgePath cleanPath w n fs1 :
  fs w !! cleanPath = None ->
  fs w !! localPath_of smudgePath = Some n ->
  open_errno n = None ->
  fstat_errno n = None ->
  PointerClean {| file_Name := localPath_of smudgePath; file_node := n |}
    (localPath_of smudgePath) (node_size n) None (fs w)
    = ((None, None), fs1) ->
  fst (ensureFile smudgePath cleanPath w) = Panic nil_dereference
  /\ closes (events_since w (snd (ensureFile smudgePath cleanPath w)))
     = [localPath_of smudgePath]
  /\ teardowns (events_since w (snd (ensureFile smudgePath cleanPath w))) = [].
Proof.
  intros Hcas Hwork Hopen Hstat Hclean.
  rewrite (ensureFile_run_no_asset _ _ _ _ _ _ Hcas Hwork Hopen Hstat Hclean).
  simpl. rewrite events_since_extend. repeat split.
Qed.

(** X5.  That is the only panic of [ensureFile]: if it panics, the CAS entry
    was absent, the working-copy file was opened and its size read, and
    [PointerClean] returned nil for both the asset and the error. *)
Theorem ensureFile_panics_only_on_nil_asset smudgePath cleanPath w msg :
  fst (ensureFile smudgePath cleanPath w) = Panic msg ->
  msg = nil_dereference
  /\ fs w !! cleanPath = None
  /\ exists n fs1,
       fs w !! localPath_of smudgePath = Some n
       /\ open_errno n = None /\ fstat_errno n = None
       /\ PointerClean
            {| file_Name := localPath_of smudgePath; file_node := n |}
            (localPath_of smudgePath) (node_size n) None (fs w)
          = ((None, None), fs1).
Proof.
  destruct (ensureFile_exits smudgePath cleanPath w)
    as [n Hcas | err Hcas Hfail | n e Hcas Hwork Hopen Hstat
        | n err fs1 Hcas Hwork Hopen Hstat Hclean
        | n asset err fs1 Hcas Hwork Hopen Hstat Hclean].
  - rewrite (ensureFile_run_present _ _ _ _ Hcas). discriminate.
  - rewrite (ensureFile_run_unopened _ _ _ _ Hcas Hfail). discriminate.
  - rewrite (ensureFile_run_unstatted _ _ _ _ _ Hcas Hwork Hopen Hstat).
    discriminate.
  - rewrite (ensureFile_run_no_asset _ _ _ _ _ _ Hcas Hwork Hopen Hstat Hclean).
    destruct err as [e|]; [discriminate |]. simpl. intros [= <-].
    repeat split; try assumption. exists n, fs1. auto.
  - rewrite (ensureFile_cleaned _ _ _ _ _ _ _ Hcas Hwork Hopen Hstat Hclean).
    discriminate.
Qed.

(** X6.  [ensureFile] closes what it opens, once, on every way out: the
    working-copy file is closed if and only if it was opened, the close is
    the last call then, and no other file is closed. *)
Theorem ensureFile_closes_what_it_opens smudgePath cleanPath w :
  closes (events_since w (snd (ensureFile smudgePath cleanPath w)))
    = (if opens_working_file smudgePath cleanPath w
       then [localPath_of smudgePath] else [])
  /\ (opens_working_file smudgePath cleanPath w = true ->
      last (events_since w (snd (ensureFile smudgePath cleanPath w)))
        = Some (EvClose (localPath_of smudgePath))).
Proof.
  destruct (ensureFile_exits smudgePath cleanPath w)
    as [n Hcas | err Hcas Hfail | n e Hcas Hwork Hopen Hstat
        | n err fs1 Hcas Hwork Hopen Hstat Hclean
        | n asset err fs1 Hcas Hwork Hopen Hstat Hclean].
  - rewrite (ensureFile_run_present _ _ _ _ Hcas).
    unfold opens_working_file. rewrite Hcas. simpl.
    rewrite events_since_extend. split; [reflexivity | discriminate].
  - rewrite (ensureFile_run_unopened _ _ _ _ Hcas Hfail).
    rewrite (unopened_not_opened _ _ _ _ Hfail). simpl.
    rewrite events_since_extend. split; [reflexivity | discriminate].
  - rewrite (ensureFile_run_unstatted _ _ _ _ _ Hcas Hwork Hopen Hstat).
    unfold opens_working_file. rewrite Hcas, Hwork, Hopen. simpl.
    rewrite events_since_extend. split; reflexivity.
  - rewrite (ensureFile_run_no_asset _ _ _ _ _ _ Hcas Hwork Hopen Hstat Hclean).
    unfold opens_working_file. rewrite Hcas, Hwork, Hopen. simpl.
    rewrite events_since_extend. split; reflexivity.
  - rewrite (ensureFile_cleaned _ _ _ _ _ _ _ Hcas Hwork Hopen Hstat Hclean).
    unfold opens_working_file. rewrite Hcas, Hwork, Hopen. simpl.
    rewrite events_since_extend. split; reflexivity.
Qed.

(** X7.  [ensureFile] leaves the files as they are on every run that does
    not reach [PointerClean]. *)
Theorem ensureFile_files_untouched_without_clean smudgePath cleanPath w :
  existsb is_clean
    (events_since w (snd (ensureFile smudgePath cleanPath w))) = false ->
  fs (snd (ensureFile smudgePath cleanPath w)) = fs w.
Proof.
  destruct (ensureFile_exits smudgePath cleanPath w)
    as [n Hcas | err Hcas Hfail | n e Hcas Hwork Hopen Hstat
        | n err fs1 Hcas Hwork Hopen Hstat Hclean
        | n asset err fs1 Hcas Hwork Hopen Hstat Hclean].
  - now rewrite (ensureFile_run_present _ _ _ _ Hcas).
  - now rewrite (ensureFile_run_unopened _ _ _ _ Hcas Hfail).
  - now rewrite (ensureFile_run_unstatted _ _ _ _ _ Hcas Hwork Hopen Hstat).
  - rewrite (ensureFile_run_no_asset _ _ _ _ _ _ Hcas Hwork Hopen Hstat Hclean).
    simpl. rewrite events_since_extend. discriminate.
  - rewrite (ensureFile_cleaned _ _ _ _ _ _ _ Hcas Hwork Hopen Hstat Hclean).
    simpl. rewrite events_since_extend. discriminate.
Qed.

(** X8.  A nil answer of [ensureFile] means one of two things: the CAS
    already had the clean path, or the working-copy file was cleaned without
    error and its OID is the base name of the clean path. *)
Theorem ensureFile_nil_means_present_or_verified smudgePath cleanPath w :
  fst (ensureFile smudgePath cleanPath w) = Return None ->
  is_Some (fs w !! cleanPath)
  \/ exists n asset fs1,
       fs w !! localPath_of smudgePath = Some n
       /\ PointerClean
            {| file_Name := localPath_of smudgePath; file_node := n |}
            (localPath_of smudgePath) (node_size n) None (fs w)
          = ((Some asset, None), fs1)
       /\ cleaned_Oid asset = filepath_Base cleanPath.
Proof.
  destruct (ensureFile_exits smudgePath cleanPath w)
    as [n Hcas | err Hcas Hfail | n e Hcas Hwork Hopen Hstat
        | n err fs1 Hcas Hwork Hopen Hstat Hclean
        | n asset err fs1 Hcas Hwork Hopen Hstat Hclean].
  - intros _. left. rewrite Hcas. now exists n.
  - rewrite (ensureFile_run_unopened _ _ _ _ Hcas Hfail). discriminate.
  - rewrite (ensureFile_run_unstatted _ _ _ _ _ Hcas Hwork Hopen Hstat).
    discriminate.
  - rewrite (ensureFile_run_no_asset _ _ _ _ _ _ Hcas Hwork Hopen Hstat Hclean).
    destruct err; discriminate.
  - rewrite (ensureFile_cleaned _ _ _ _ _ _ _ Hcas Hwork Hopen Hstat Hclean).
    simpl. unfold verdict. destruct err as [e|]; [discriminate |].
    destruct (String.eqb _ _) eqn:Hoid; [| discriminate].
    intros _. right. exists n, asset, fs1.
    apply String.eqb_eq in Hoid. auto.
Qed.

End EnsureFileProperties.

(** * Further properties of [NewUploadable] and of the methods *)

Section UploadableProperties.
Context `{Ext : Externals}.

Lemma occurs_filename_oid filename oid :
  occurs filename (upload_error_message filename oid)
  /\ occurs oid (upload_error_message filename oid).
Proof. unfold upload_error_message. split; auto 6 with occurs. Qed.

(** X9.  With an empty filename (a raw object is pushed) [NewUploadable]
    makes one call, the [os.Stat] of the media path: it returns an
    [Uploadable] if and only if the object is in the CAS, of the size of
    that object, and the wrapped [os.Stat] error otherwise. *)
Theorem NewUploadable_raw_object oid w p :
  LocalMediaPath oid = inl p ->
  snd (NewUploadable oid "" w) = extend [EvStat p] w
  /\ (forall n,
        fs w !! p = Some n ->
        fst (NewUploadable oid "" w)
          = Return (inl {| u_oid := oid; u_OidPath := p; u_Filename := "";
                           u_size := node_size n; u_object := None |}))
  /\ (fs w !! p = None ->
      fst (NewUploadable oid "" w)
        = Return (inr (errutil_Errorf (PathError "stat" p ENOENT)
                         (upload_error_message "" oid)))).
Proof.
  intros Hp. rewrite (NewUploadable_run _ _ _ _ Hp).
  unfold reconcile_step, ret. simpl.
  destruct (fs w !! p) as [n|]; simpl; repeat split; try discriminate.
  now intros n' [= <-].
Qed.

(** X10.  With a filename given and the object already in the CAS,
    [NewUploadable] succeeds without looking at the working copy: its calls
    are the two [os.Stat] of the media path, whether the named file exists
    or not and whatever it holds, and the size is the size of the object. *)
Theorem NewUploadable_present_object_skips_working_copy oid filename w p n :
  LocalMediaPath oid = inl p ->
  fs w !! p = Some n ->
  filename <> "" ->
  NewUploadable oid filename w =
    (Return (inl {| u_oid := oid; u_OidPath := p; u_Filename := filename;
                    u_size := node_size n; u_object := None |}),
     extend [EvEnsureFile filename p; EvStat p; EvStat p] w).
Proof.
  intros Hp Hcas Hne. rewrite (NewUploadable_run _ _ _ _ Hp).
  unfold reconcile_step. apply nonempty_length in Hne. rewrite Hne.
  rewrite (ensureFile_run_present _ _ _ _ Hcas). simpl. rewrite Hcas.
  unfold extend. simpl. tidy_log. reflexivity.
Qed.

(** X11.  When [LocalMediaPath] fails, [NewUploadable] returns its error
    wrapped in a message that names the filename and the oid, and makes no
    call at all. *)
Theorem NewUploadable_no_media_path oid filename w err :
  LocalMediaPath oid = inr err ->
  exists msg,
    NewUploadable oid filename w = (Return (inr (Wrapped err msg)), w)
    /\ occurs filename msg /\ occurs oid msg.
Proof.
  intros Hp. exists (upload_error_message filename oid).
  split; [now apply NewUploadable_no_path | apply occurs_filename_oid].
Qed.

(** X12.  With a filename given, the object absent from the CAS and the
    working-copy file failing to open, [NewUploadable] returns the error of
    [os.Open] as it is, not wrapped like the [os.Stat] error, and stops
    there: the media path is not looked at again. *)
Theorem NewUploadable_unopened_working_copy oid filename w p err :
  LocalMediaPath oid = inl p ->
  filename <> "" ->
  fs w !! p = None ->
  fst (os_Open (localPath_of filename) w) = Return (inr err) ->
  NewUploadable oid filename w =
    (Return (inr err),
     extend [EvEnsureFile filename p; EvStat p;
             EvOpen (localPath_of filename)] w).
Proof.
  intros Hp Hne Hcas Hopen. rewrite (NewUploadable_run _ _ _ _ Hp).
  unfold reconcile_step. apply nonempty_length in Hne. rewrite Hne.
  now rewrite (ensureFile_run_unopened _ _ _ _ Hcas Hopen).
Qed.

(** X13.  As long as [PointerClean] never returns nil for both the asset and
    the error, [NewUploadable] does not panic: it returns an [Uploadable] or
    an error for every oid, filename and state of the files. *)
Theorem NewUploadable_returns oid filename w :
  clean_never_nil_nil ->
  exists r, fst (NewUploadable oid filename w) = Return r.
Proof.
  intros Hclean_ok.
  destruct (LocalMediaPath oid) as [p|err] eqn:Hp;
    [| rewrite (NewUploadable_no_path _ _ _ _ Hp); eauto].
  rewrite (NewUploadable_run _ _ _ _ Hp). unfold reconcile_step.
  assert (Hstat : forall w1 : World, exists r,
    fst (match fs w1 !! p with
         | Some n =>
             (Return (inl {| u_oid := oid; u_OidPath := p;
                             u_Filename := filename; u_size := node_size n;
                             u_object := None |}),
              extend [EvStat p] w1)
         | None =>
             (Return (inr (errutil_Errorf (PathError "stat" p ENOENT)
                             (upload_error_message filename oid))),
              extend [EvStat p] w1)
         end) = Return r).
  { intros w1. destruct (fs w1 !! p); simpl; eauto. }
  destruct (0 <? String.length filename)%nat; [| apply Hstat].
  destruct (ensureFile_exits filename p w)
    as [n Hcas | e Hcas Hfail | n e Hcas Hwork Hopen Hfstat
        | n e fs1 Hcas Hwork Hopen Hfstat Hclean
        | n asset e fs1 Hcas Hwork Hopen Hfstat Hclean].
  - rewrite (ensureFile_run_present _ _ _ _ Hcas). apply Hstat.
  - rewrite (ensureFile_run_unopened _ _ _ _ Hcas Hfail). simpl. eauto.
  - rewrite (ensureFile_run_unstatted _ _ _ _ _ Hcas Hwork Hopen Hfstat).
    simpl. eauto.
  - destruct e as [e|]; [| now apply Hclean_ok in Hclean].
    rewrite (ensureFile_run_no_asset _ _ _ _ _ _ Hcas Hwork Hopen Hfstat Hclean).
    simpl. eauto.
  - rewrite (ensureFile_cleaned _ _ _ _ _ _ _ Hcas Hwork Hopen Hfstat Hclean).
    destruct (verdict filename p asset e); [simpl; eauto | apply Hstat].
Qed.

Lemma step_size_name op u w u1 w1 :
  step op u w = (Return u1, w1) ->
  Uploadable_Size u1 = Uploadable_Size u
  /\ Uploadable_Name u1 = Uploadable_Name u
  /\ u_OidPath u1 = u_OidPath u.
Proof.
  destruct op; unfold step, ret; try (intros [= <- <-]; now repeat split).
  unfold bind. destruct (Uploadable_Transfer u cb w) as [[r|msg] w0];
    [| discriminate].
  intros [= <- <-]. now repeat split.
Qed.

(** X15.  No sequence of method calls changes [Size()], [Name()] or the
    media path of an [Uploadable]: [SetObject], [Check] and [Transfer] leave
    them as [NewUploadable] set them. *)
Theorem run_keeps_size_name_path ops : forall u w u' w',
  run ops u w = (Return u', w') ->
  Uploadable_Size u' = Uploadable_Size u
  /\ Uploadable_Name u' = Uploadable_Name u
  /\ u_OidPath u' = u_OidPath u.
Proof.
  induction ops as [|op ops IH]; intros u w u' w'; simpl.
  - unfold ret. intros [= <- <-]. now repeat split.
  - unfold bind. destruct (step op u w) as [[u1|msg] w1] eqn:Hstep;
      [| discriminate].
    intros Hrun. apply step_size_name in Hstep as (Hs & Hn & Hp).
    apply IH in Hrun as (Hs' & Hn' & Hp'). repeat split; congruence.
Qed.

(** X16.  An [Uploadable] as [NewUploadable] returns it cannot be
    transferred: until [SetObject] is called, whatever else is called on it,
    [Transfer] panics on the nil resource, before any file is opened. *)
Theorem Transfer_needs_SetObject oid filename w u w1 ops u' w2 cb w3 :
  NewUploadable oid filename w = (Return (inl u), w1) ->
  run ops u w1 = (Return u', w2) ->
  forallb (fun op => negb (is_SetObject op)) ops = true ->
  Uploadable_Transfer u' cb w3 = (Panic nil_dereference, w3).
Proof.
  intros Hnew Hrun Hops.
  assert (Hnil : u_object u = None).
  { destruct (LocalMediaPath oid) as [p|err] eqn:Hp.
    - rewrite (NewUploadable_run _ _ _ _ Hp) in Hnew.
      destruct (reconcile_step filename p w) as [[[err|]|msg] w0];
        try discriminate.
      destruct (fs w0 !! p); try discriminate.
      now injection Hnew as <- _.
    - rewrite (NewUploadable_no_path _ _ _ _ Hp) in Hnew. discriminate. }
  apply run_fields in Hrun as [_ Hobj]. unfold Uploadable_Object in Hobj.
  rewrite Hnil, (last_set_without _ _ Hops) in Hobj.
  unfold Uploadable_Transfer. now rewrite Hobj.
Qed.

(** X17.  When [LocalMediaPath] fails on the OID of the resource,
    [Transfer] returns its error wrapped by [errutil.Error] and makes no
    call: nothing is opened, nothing is uploaded. *)
Theorem Transfer_no_media_path u cb w obj err :
  Uploadable_Object u = Some obj ->
  LocalMediaPath (api.Oid obj) = inr err ->
  Uploadable_Transfer u cb w = (Return (Some (errutil_Error err)), w).
Proof.
  unfold Uploadable_Object. intros Hobj Hp.
  unfold Uploadable_Transfer. now rewrite Hobj, Hp.
Qed.

(** X18.  When the object of the resource cannot be opened in the CAS,
    [Transfer] returns the error of [os.Open] wrapped by [errutil.Error];
    [api.UploadObject] is not called and nothing is closed. *)
Theorem Transfer_open_error u cb w obj path err :
  Uploadable_Object u = Some obj ->
  LocalMediaPath (api.Oid obj) = inl path ->
  fst (os_Open path w) = Return (inr err) ->
  Uploadable_Transfer u cb w =
    (Return (Some (errutil_Error err)), extend [EvOpen path] w).
Proof.
  unfold Uploadable_Object. intros Hobj Hp.
  unfold Uploadable_Transfer. rewrite Hobj, Hp. unfold_io.
  destruct (fs w !! path) as [n|]; simpl.
  - destruct (open_errno n); simpl; [| discriminate]. now intros [= <-].
  - now intros [= <-].
Qed.

(** X19.  When the object opens, [Transfer] returns what
    [api.UploadObject] returns, nil or its error as it is, and closes the
    file after the upload in either case, and when the upload panics too.
    The file it opens is the one at the media path of the resource's OID,
    whatever the oid and the path the [Uploadable] was made with. *)
Theorem Transfer_returns_upload_result u cb w obj path n r w1 :
  Uploadable_Object u = Some obj ->
  LocalMediaPath (api.Oid obj) = inl path ->
  fs w !! path = Some n ->
  open_errno n = None ->
  UploadObject obj (transfer_reader cb obj path n)
    (extend [EvOpen path; EvUploadObject obj] w) = (r, w1) ->
  Uploadable_Transfer u cb w = (r, extend [EvClose path] w1).
Proof.
  unfold Uploadable_Object, transfer_reader, extend.
  intros Hobj Hp Hfile Hopen Hup.
  unfold Uploadable_Transfer. rewrite Hobj, Hp. unfold_io.
  rewrite Hfile, Hopen. simpl.
  rewrite <- app_assoc. simpl. simpl in Hup. rewrite Hup.
  destruct r; reflexivity.
Qed.

End UploadableProperties.

(** * The further properties on the small repository *)

Lemma ensureFile_open_error_witness :
  ensureFile (Ext:=sample_env) "locked.bin" (sample_media_path "other")
    faulty_world
  = (Return (Some (PathError "open" "/repo/locked.bin" EACCES)),
     extend [EvEnsureFile "locked.bin" (sample_media_path "other");
             EvStat (sample_media_path "other");
             EvOpen "/repo/locked.bin"] faulty_world)
  /\ exists e,
       PathError "open" "/repo/locked.bin" EACCES
       = PathError "open" (localPath_of (Ext:=sample_env) "locked.bin") e.
Proof.
  refine (ensureFile_open_error (Ext:=sample_env) "locked.bin"
            (sample_media_path "other") faulty_world
            (PathError "open" "/repo/locked.bin" EACCES) _ _);
    vm_compute; reflexivity.
Defined.

Lemma ensureFile_fstat_error_witness :
  ensureFile (Ext:=sample_env) "stale.bin" (sample_media_path "other")
    faulty_world
  = (Return (Some (PathError "stat" "/repo/stale.bin" EIO)),
     extend [EvEnsureFile "stale.bin" (sample_media_path "other");
             EvStat (sample_media_path "other");
             EvOpen "/repo/stale.bin"; EvFileStat "/repo/stale.bin";
             EvClose "/repo/stale.bin"] faulty_world)
  /\ existsb is_clean
       (events_since faulty_world
          (snd (ensureFile (Ext:=sample_env) "stale.bin"
                  (sample_media_path "other") faulty_world))) = false.
Proof.
  refine (ensureFile_fstat_error (Ext:=sample_env) "stale.bin"
            (sample_media_path "other") faulty_world stale_node EIO _ _ _ _);
    vm_compute; reflexivity.
Defined.

Lemma ensureFile_clean_error_no_asset_witness :
  fst (ensureFile (Ext:=no_staging_env) "a.bin" (sample_media_path "hello")
         sample_world)
    = Return (Some (Foreign "lfs" "no temporary file"))
  /\ teardowns
       (events_since sample_world
          (snd (ensureFile (Ext:=no_staging_env) "a.bin"
                  (sample_media_path "hello") sample_world))) = []
  /\ closes
       (events_since sample_world
          (snd (ensureFile (Ext:=no_staging_env) "a.bin"
                  (sample_media_path "hello") sample_world)))
     = ["/repo/a.bin"]
  /\ fs (snd (ensureFile (Ext:=no_staging_env) "a.bin"
                (sample_media_path "hello") sample_world))
     = fs sample_world.
Proof.
  refine (ensureFile_clean_error_no_asset (Ext:=no_staging_env) "a.bin"
            (sample_media_path "hello") sample_world (node_of "hello")
            (Foreign "lfs" "no temporary file") (fs sample_world) _ _ _ _ _);
    vm_compute; reflexivity.
Defined.

Lemma ensureFile_nil_asset_panics_witness :
  fst (ensureFile (Ext:=nil_clean_env) "a.bin" (sample_media_path "hello")
         sample_world)
    = Panic nil_dereference
  /\ closes
       (events_since sample_world
          (snd (ensureFile (Ext:=nil_clean_env) "a.bin"
                  (sample_media_path "hello") sample_world)))
     = ["/repo/a.bin"]
  /\ teardowns
       (events_since sample_world
          (snd (ensureFile (Ext:=nil_clean_env) "a.bin"
                  (sample_media_path "hello") sample_world))) = [].
Proof.
  refine (ensureFile_nil_asset_panics (Ext:=nil_clean_env) "a.bin"
            (sample_media_path "hello") sample_world (node_of "hello")
            (fs sample_world) _ _ _ _ _);
    vm_compute; reflexivity.
Defined.

Lemma ensureFile_panics_only_on_nil_asset_witness :
  nil_dereference = nil_dereference
  /\ fs sample_world !! sample_media_path "hello" = None
  /\ exists n fs1,
       fs sample_world !! localPath_of (Ext:=nil_clean_env) "a.bin" = Some n
       /\ open_errno n = None /\ fstat_errno n = None
       /\ PointerClean (Externals:=nil_clean_env)
            {| file_Name := localPath_of (Ext:=nil_clean_env) "a.bin";
               file_node := n |}
            (localPath_of (Ext:=nil_clean_env) "a.bin") (node_size n) None
            (fs sample_world)
          = ((None, None), fs1).
Proof.
  refine (ensureFile_panics_only_on_nil_asset (Ext:=nil_clean_env) "a.bin"
            (sample_media_path "hello") sample_world nil_dereference _).
  vm_compute. reflexivity.
Defined.

Lemma ensureFile_closes_what_it_opens_witness :
  last (events_since sample_world
          (snd (ensureFile (Ext:=sample_env) "a.bin"
                  (sample_media_path "other") sample_world)))
  = Some (EvClose "/repo/a.bin").
Proof.
  refine (proj2 (ensureFile_closes_what_it_opens (Ext:=sample_env) "a.bin"
                   (sample_media_path "other") sample_world) _).
  vm_compute. reflexivity.
Defined.

Lemma ensureFile_files_untouched_without_clean_witness :
  fs (snd (ensureFile (Ext:=sample_env) "stale.bin"
             (sample_media_path "other") faulty_world))
  = fs faulty_world.
Proof.
  refine (ensureFile_files_untouched_without_clean (Ext:=sample_env)
            "stale.bin" (sample_media_path "other") faulty_world _).
  vm_compute. reflexivity.
Defined.

Lemma ensureFile_nil_means_present_or_verified_witness :
  is_Some (fs sample_world !! sample_media_path "hello")
  \/ exists n asset fs1,
       fs sample_world !! localPath_of (Ext:=sample_env) "a.bin" = Some n
       /\ PointerClean (Externals:=sample_env)
            {| file_Name := localPath_of (Ext:=sample_env) "a.bin";
               file_node := n |}
            (localPath_of (Ext:=sample_env) "a.bin") (node_size n) None
            (fs sample_world)
          = ((Some asset, None), fs1)
       /\ cleaned_Oid asset
          = filepath_Base (Externals:=sample_env) (sample_media_path "hello").
Proof.
  refine (ensureFile_nil_means_present_or_verified (Ext:=sample_env) "a.bin"
            (sample_media_path "hello") sample_world _).
  vm_compute. reflexivity.
Defined.

Lemma NewUploadable_raw_object_witness :
  fst (NewUploadable (Ext:=sample_env) "zzz" "" sample_world)
  = Return (inr (errutil_Errorf
                   (PathError "stat" (sample_media_path "zzz") ENOENT)
                   (upload_error_message "" "zzz"))).
Proof.
  refine (proj2 (proj2 (NewUploadable_raw_object (Ext:=sample_env) "zzz"
                          sample_world (sample_media_path "zzz") eq_refl)) _).
  vm_compute. reflexivity.
Defined.

(** The working copy has no [gone.bin]; the object [abc] is in the CAS. *)
Lemma NewUploadable_present_object_skips_working_copy_witness :
  NewUploadable (Ext:=sample_env) "abc" "gone.bin" sample_world =
    (Return (inl {| u_oid := "abc"; u_OidPath := sample_media_path "abc";
                    u_Filename := "gone.bin";
                    u_size := node_size (node_of "abc");
                    u_object := None |}),
     extend [EvEnsureFile "gone.bin" (sample_media_path "abc");
             EvStat (sample_media_path "abc");
             EvStat (sample_media_path "abc")] sample_world).
Proof.
  refine (NewUploadable_present_object_skips_working_copy (Ext:=sample_env)
            "abc" "gone.bin" sample_world (sample_media_path "abc")
            (node_of "abc") eq_refl _ _).
  - vm_compute. reflexivity.
  - discriminate.
Defined.

Lemma NewUploadable_no_media_path_witness :
  exists msg,
    NewUploadable (Ext:=no_media_env) "abc" "a.bin" sample_world
      = (Return (inr (Wrapped
                        (Foreign "lfs"
                           "Error trying to create local media directory")
                        msg)),
         sample_world)
    /\ occurs "a.bin" msg /\ occurs "abc" msg.
Proof.
  exact (NewUploadable_no_media_path (Ext:=no_media_env) "abc" "a.bin"
           sample_world _ eq_refl).
Defined.

Lemma NewUploadable_unopened_working_copy_witness :
  NewUploadable (Ext:=sample_env) "other" "locked.bin" faulty_world =
    (Return (inr (PathError "open" "/repo/locked.bin" EACCES)),
     extend [EvEnsureFile "locked.bin" (sample_media_path "other");
             EvStat (sample_media_path "other");
             EvOpen "/repo/locked.bin"] faulty_world).
Proof.
  refine (NewUploadable_unopened_working_copy (Ext:=sample_env) "other"
            "locked.bin" faulty_world (sample_media_path "other")
            (PathError "open" "/repo/locked.bin" EACCES) eq_refl _ _ _).
  - discriminate.
  - vm_compute. reflexivity.
  - vm_compute. reflexivity.
Defined.

Lemma NewUploadable_returns_witness :
  exists r,
    fst (NewUploadable (Ext:=sample_env) "hello" "a.bin" sample_world)
      = Return r.
Proof.
  apply (NewUploadable_returns (Ext:=sample_env) "hello" "a.bin" sample_world).
  intros file fileName fileSize cb files fs1. simpl.
  unfold sample_PointerClean.
  destruct (data (file_node file)) as [|[] l]; discriminate.
Defined.

Lemma run_keeps_size_name_path_witness :
  Uploadable_Size (Uploadable_SetObject sample_uploadable (Some sample_object))
    = Uploadable_Size sample_uploadable
  /\ Uploadable_Name
       (Uploadable_SetObject sample_uploadable (Some sample_object))
     = Uploadable_Name sample_uploadable
  /\ u_OidPath (Uploadable_SetObject sample_uploadable (Some sample_object))
     = u_OidPath sample_uploadable.
Proof.
  refine (run_keeps_size_name_path (Ext:=sample_env) sample_calls
            sample_uploadable sample_world
            (Uploadable_SetObject sample_uploadable (Some sample_object))
            (snd (run (Ext:=sample_env) sample_calls sample_uploadable
                    sample_world)) _).
  vm_compute. reflexivity.
Defined.

Lemma Transfer_needs_SetObject_witness :
  Uploadable_Transfer (Ext:=sample_env) sample_uploadable silent sample_world
  = (Panic nil_dereference, sample_world).
Proof.
  refine (Transfer_needs_SetObject (Ext:=sample_env) "abc" "a.bin"
            sample_world sample_uploadable
            (snd (NewUploadable (Ext:=sample_env) "abc" "a.bin" sample_world))
            [OpOid; OpCheck; OpName] sample_uploadable
            (snd (run (Ext:=sample_env) [OpOid; OpCheck; OpName]
                    sample_uploadable
                    (snd (NewUploadable (Ext:=sample_env) "abc" "a.bin"
                            sample_world))))
            silent sample_world _ _ _);
    vm_compute; reflexivity.
Defined.

Lemma Transfer_no_media_path_witness :
  Uploadable_Transfer (Ext:=no_media_env)
    (Uploadable_SetObject sample_uploadable (Some sample_object)) silent
    sample_world
  = (Return (Some (errutil_Error
                     (Foreign "lfs"
                        "Error trying to create local media directory"))),
     sample_world).
Proof.
  exact (Transfer_no_media_path (Ext:=no_media_env)
           (Uploadable_SetObject sample_uploadable (Some sample_object))
           silent sample_world sample_object _ eq_refl eq_refl).
Defined.

(** The [Uploadable] was made for [abc], which is in the CAS; the resource
    set on it names [xyz], which cannot be opened. *)
Lemma Transfer_open_error_witness :
  Uploadable_Transfer (Ext:=sample_env)
    (Uploadable_SetObject sample_uploadable (Some xyz_object)) silent
    faulty_world
  = (Return (Some (errutil_Error
                     (PathError "open" (sample_media_path "xyz") EACCES))),
     extend [EvOpen (sample_media_path "xyz")] faulty_world).
Proof.
  refine (Transfer_open_error (Ext:=sample_env)
            (Uploadable_SetObject sample_uploadable (Some xyz_object))
            silent faulty_world xyz_object (sample_media_path "xyz")
            (PathError "open" (sample_media_path "xyz") EACCES)
            eq_refl eq_refl _).
  vm_compute. reflexivity.
Defined.

(** The remote refuses the first chunk: the error of the upload comes back
    and the file is closed. *)
Lemma Transfer_returns_upload_result_witness :
  Uploadable_Transfer (Ext:=refusing_env)
    (Uploadable_SetObject sample_uploadable (Some sample_object)) silent
    sample_world
  = (Return (Some (Wrapped (Foreign "http" "503") "UploadError")),
     extend [EvOpen (sample_media_path "abc"); EvUploadObject sample_object;
             EvPut (api.Href sample_link) ["a"%byte; "b"%byte];
             EvClose (sample_media_path "abc")] sample_world).
Proof.
  refine (Transfer_returns_upload_result (Ext:=refusing_env)
            (Uploadable_SetObject sample_uploadable (Some sample_object))
            silent sample_world sample_object (sample_media_path "abc")
            (node_of "abc")
            (Return (Some (Wrapped (Foreign "http" "503") "UploadError")))
            (extend [EvOpen (sample_media_path "abc");
                     EvUploadObject sample_object;
                     EvPut (api.Href sample_link) ["a"%byte; "b"%byte]]
               sample_world)
            eq_refl eq_refl _ _ _);
    vm_compute; reflexivity.
Defined.

(** The action expires while the first chunk is sent: the second chunk is
    not put, [AuthExpired] comes back and the file is closed. *)
Example Transfer_expires_midway :
  Uploadable_Transfer (Ext:=ticking_env)
    (Uploadable_SetObject sample_uploadable (Some brief_object))
    (Some recording) sample_world
  = (Return (Some (Foreign "api" "AuthExpired")),
     extend [EvOpen (sample_media_path "abc"); EvUploadObject brief_object;
             EvPut "https://lfs.example/objects/abc" ["a"%byte; "b"%byte];
             EvProgress 3 2 2;
             EvClose (sample_media_path "abc")] sample_world).
Proof. vm_compute. reflexivity. Qed.

(** A nil callback with the resource set: the panic comes when the first
    chunk is reported, and the deferred close still runs. *)
Example Transfer_nil_callback :
  Uploadable_Transfer (Ext:=sample_env)
    (Uploadable_SetObject sample_uploadable (Some sample_object)) None
    sample_world
  = (Panic nil_dereference,
     extend [EvOpen (sample_media_path "abc"); EvUploadObject sample_object;
             EvPut (api.Href sample_link) ["a"%byte; "b"%byte];
             EvClose (sample_media_path "abc")] sample_world).
Proof. vm_compute. reflexivity. Qed.
